(** * EDM metadata to model generators: type resolution, naming, enums

    A shallow embedding of the generators of this repository:

    - [Main]  : [main.go], the Go struct generator with namespace aliases,
    - [Grok]  : [grok4fastWorking/main.go], the earlier Go generator,
    - [Zod]   : the TypeScript/Zod generator,
    - [Ark]   : the ArkType generator.

    A Go string is modelled by the sequence of its code points.  The
    metadata strings come out of [encoding/xml], which only yields valid
    UTF-8, and on such strings every operation used below (comparison,
    concatenation, prefix and suffix tests, searching for an ASCII
    separator and slicing at the position found) acts on the code points
    exactly as it acts on the bytes. *)

From Stdlib Require Import ZArith String Ascii DecimalString.
From stdpp Require Import gmap list sorting.

Local Open Scope Z_scope.

(** ** Go strings and the [strings] / [strconv] functions the source uses *)

Module GoStr.

Definition rune := N.
Abbreviation gostring := (list rune).

(** A string literal of the source. *)
Definition str (s : string) : gostring :=
  (λ a, N_of_ascii a) <$> list_ascii_of_string s.
Arguments str s%_string : simpl never.

(** Comparison with a literal. *)
Definition isLit (a : gostring) (lit : string) : bool := bool_decide (a = str lit).
Arguments isLit a lit%_string.

(** The line feed. *)
Definition nl : gostring := [10%N].

Definition HasPrefix (s prefix : gostring) : bool :=
  bool_decide (take (length prefix) s = prefix).

Definition HasSuffix (s suffix : gostring) : bool :=
  bool_decide (length suffix ≤ length s)%nat
  && bool_decide (drop (length s - length suffix) s = suffix).

Definition TrimPrefix (s prefix : gostring) : gostring :=
  if HasPrefix s prefix then drop (length prefix) s else s.

Definition TrimSuffix (s suffix : gostring) : gostring :=
  if HasSuffix s suffix then take (length s - length suffix) s else s.

(** [strings.Index]: position of the first occurrence, [-1] when absent. *)
Fixpoint Index (s sub : gostring) : Z :=
  if HasPrefix s sub then 0
  else match s with
       | [] => -1
       | _ :: t => let r := Index t sub in if decide (0 ≤ r) then r + 1 else -1
       end.

(** [strings.LastIndex]: position of the last occurrence, [-1] when absent. *)
Fixpoint LastIndex (s sub : gostring) : Z :=
  match s with
  | [] => if HasPrefix s sub then 0 else -1
  | _ :: t =>
      let r := LastIndex t sub in
      if decide (0 ≤ r) then r + 1
      else if HasPrefix s sub then 0 else -1
  end.

Definition Contains (s sub : gostring) : bool := bool_decide (0 ≤ Index s sub).

(** [s[i:]] and [s[:i]] for an index inside the string. *)
Definition from (s : gostring) (i : Z) : gostring := drop (Z.to_nat i) s.
Definition upto (s : gostring) (i : Z) : gostring := take (Z.to_nat i) s.

(** [strings.SplitN(s, sep, 2)]: cut at the first separator, if any. *)
Definition SplitN2 (s sep : gostring) : list gostring :=
  let i := Index s sep in
  if decide (0 ≤ i) then [upto s i; from s (i + Z.of_nat (length sep))]
  else [s].

(** [strings.Split(s, sep)] for a separator of one character, the only
    kind the source splits on. *)
Fixpoint Split (s : gostring) (sep : rune) : list gostring :=
  match s with
  | [] => [[]]
  | c :: t =>
      if decide (c = sep) then [] :: Split t sep
      else match Split t sep with
           | p :: ps => (c :: p) :: ps
           | [] => [[c]]
           end
  end.

(** [strings.Join]. *)
Fixpoint Join (parts : list gostring) (sep : gostring) : gostring :=
  match parts with
  | [] => []
  | [p] => p
  | p :: ps => p ++ sep ++ Join ps sep
  end.

(** [unicode.IsSpace]: the White_Space property. *)
Definition IsSpace (r : rune) : bool :=
  ((9 <=? r) && (r <=? 13) || (r =? 32) || (r =? 133) || (r =? 160)
   || (r =? 5760) || (8192 <=? r) && (r <=? 8202)
   || (r =? 8232) || (r =? 8233) || (r =? 8239) || (r =? 8287)
   || (r =? 12288))%N.

Fixpoint TrimLeftSpace (s : gostring) : gostring :=
  match s with
  | c :: t => if IsSpace c then TrimLeftSpace t else s
  | [] => []
  end.

(** [strings.TrimSpace]. *)
Definition TrimSpace (s : gostring) : gostring :=
  reverse (TrimLeftSpace (reverse (TrimLeftSpace s))).

(** *** Machine integers: Go's [int] on a 64-bit platform *)

Definition minInt : Z := - 2 ^ 63.
Definition maxInt : Z := 2 ^ 63 - 1.

(** Two's complement wrap-around of [int] arithmetic. *)
Definition wrapInt (z : Z) : Z := (z + 2 ^ 63) mod 2 ^ 64 - 2 ^ 63.

Definition digit (r : rune) : option Z :=
  if ((48 <=? r) && (r <=? 57))%N then Some (Z.of_N r - 48) else None.

Fixpoint digits (acc : Z) (s : gostring) : option Z :=
  match s with
  | [] => Some acc
  | c :: t => match digit c with
              | Some d => digits (10 * acc + d) t
              | None => None
              end
  end.

(** [strconv.Atoi]: an optional sign, then one or more decimal digits, and
    a value that fits an [int]; [None] stands for the error result. *)
Definition Atoi (s : gostring) : option Z :=
  let '(neg, body) :=
    match s with
    | c :: t => if decide (c = 45%N) then (true, t)
                else if decide (c = 43%N) then (false, t)
                else (false, s)
    | [] => (false, s)
    end in
  match body with
  | [] => None
  | _ => match digits 0 body with
         | Some n => let v := if neg then - n else n in
                     if decide (minInt ≤ v ≤ maxInt) then Some v else None
         | None => None
         end
  end.

(** [fmt.Sprintf("%d", z)]. *)
Definition itoa (z : Z) : gostring := str (NilZero.string_of_int (Z.to_int z)).

End GoStr.

Import GoStr.

(** ** [main.go]: the Go struct generator *)

Module Main.

Record Options := {
  PkgName : gostring;
  DecimalMode : gostring;   (* "shopspring" or "string" *)
  NsPrefixMode : gostring;  (* "auto", "always", "none" *)
  InPath : gostring;
  OutPath : gostring
}.

Record EnumMember := { mName : gostring; mValue : gostring }.

Record EnumType := {
  enNamespace : gostring;
  enName : gostring;
  Underlying : gostring;
  Members : list EnumMember;
  IsFlags : bool
}.

(** [Nullable *bool]: [None] is the nil pointer. *)
Record Property := {
  pName : gostring;
  pType : gostring;
  pNullable : option bool
}.

Record EntityType := {
  etNamespace : gostring;
  etName : gostring;
  etBaseType : gostring;
  Keys : list gostring;
  etProperties : list Property;
  NavPropsV4 : list Property
}.

Record ComplexType := {
  ctNamespace : gostring;
  ctName : gostring;
  ctBaseType : gostring;
  ctProperties : list Property
}.

Record Schema := {
  Namespace : gostring;
  EntityTypes : gmap gostring EntityType;
  ComplexTypes : gmap gostring ComplexType;
  EnumTypes : gmap gostring EnumType
}.

(** The part of [genState] that name and type resolution reads and writes. *)
Record genState := {
  opts : Options;
  nsAliases : gmap gostring gostring;
  useTime : bool;
  useDecimal : bool;
  knownTypes : gset gostring;
  typeNameMap : gmap gostring gostring
}.

Definition set_useTime (st : genState) : genState :=
  {| opts := opts st; nsAliases := nsAliases st; useTime := true;
     useDecimal := useDecimal st; knownTypes := knownTypes st;
     typeNameMap := typeNameMap st |}.

Definition set_useDecimal (st : genState) : genState :=
  {| opts := opts st; nsAliases := nsAliases st; useTime := useTime st;
     useDecimal := true; knownTypes := knownTypes st;
     typeNameMap := typeNameMap st |}.

(** *** Identifiers and namespace aliases *)

(** The tables of Go's [unicode] package that the generator consults.
    They belong to the Go library, not to this repository, and the
    development is parametric in them. *)
Record UnicodeTables := {
  IsLetter : rune → bool;
  IsDigit : rune → bool;
  ToUpper : rune → rune;
  ToLower : rune → rune
}.

(** The tables on the ASCII range, where they have a closed form.  Outside
    that range this instance knows no letter and no digit and maps a rune
    to itself; it serves to run the generator on ASCII metadata. *)
Definition asciiTables : UnicodeTables := {|
  IsLetter r := ((65 <=? r) && (r <=? 90) || (97 <=? r) && (r <=? 122))%N;
  IsDigit r := ((48 <=? r) && (r <=? 57))%N;
  ToUpper r := if ((97 <=? r) && (r <=? 122))%N then (r - 32)%N else r;
  ToLower r := if ((65 <=? r) && (r <=? 90))%N then (r + 32)%N else r
|}.

Section Names.
Context (U : UnicodeTables).

(** [strings.ToLower]. *)
Definition strings_ToLower (s : gostring) : gostring := ToLower U <$> s.

Definition sanitizeIdent (s : gostring) : gostring :=
  filter (λ r, IsLetter U r || IsDigit U r) s.

(** The loop of [goExported] over the runes behind the first. *)
Definition exportedTail (rs : gostring) : gostring :=
  filter (λ r, IsLetter U r || IsDigit U r || bool_decide (r = 95%N)) rs.

Definition goExported (name : gostring) : gostring :=
  match name with
  | [] => str "X"
  | r0 :: rest =>
      let r := ToUpper U r0 in
      (if IsLetter U r || bool_decide (r = 95%N) then [r]
       else if IsDigit U r then [88%N; r] else [88%N])
      ++ exportedTail rest
  end.

Definition namespaceAlias (ns : gostring) : gostring :=
  let seg := ns in
  let seg := let idx := LastIndex ns (str ".") in
             if decide (0 ≤ idx) then from ns (idx + 1) else seg in
  let seg := let idx := LastIndex seg (str "/") in
             if decide (0 ≤ idx) then from seg (idx + 1) else seg in
  let seg := sanitizeIdent seg in
  let seg := if bool_decide (seg = []) then str "NS" else seg in
  goExported seg.

End Names.

Definition splitQualified (qn : gostring) : gostring * gostring :=
  let idx := LastIndex qn (str ".") in
  if decide (idx < 0) then ([], qn)
  else (upto qn idx, from qn (idx + 1)).

Definition baseNameFromQualified (qn : gostring) : gostring :=
  (splitQualified qn).2.

(** The order of [sort.Strings]. *)
Fixpoint strLeb (a b : gostring) : bool :=
  match a, b with
  | [], _ => true
  | _ :: _, [] => false
  | x :: a', y :: b' => (x <? y)%N || (x =? y)%N && strLeb a' b'
  end.

Definition strLe (a b : gostring) : Prop := strLeb a b = true.

#[global] Instance strLe_dec a b : Decision (strLe a b).
Proof. unfold strLe. apply _. Defined.

Definition sortStrings (l : list gostring) : list gostring :=
  merge_sort strLe l.

Definition distinctNamespaces (schemas : list Schema) : list gostring :=
  let set : gset gostring :=
    foldl (λ set s, if bool_decide (Namespace s ≠ []) then {[Namespace s]} ∪ set
                    else set) ∅ schemas in
  sortStrings (elements set).

(** Reading a [map[string]string]: the empty string when the key is absent. *)
Definition mapGet (m : gmap gostring gostring) (k : gostring) : gostring :=
  default [] (m !! k).

Definition boolOrDefault (p : option bool) (d : bool) : bool :=
  match p with None => d | Some b => b end.

Definition stripPointer (t : gostring) : gostring :=
  if HasPrefix t (str "*") then TrimPrefix t (str "*") else t.

Definition basicTypes : list gostring :=
  str <$> ["string"; "bool"; "byte"; "rune"; "int"; "int8"; "int16"; "int32";
           "int64"; "uint"; "uint8"; "uint16"; "uint32"; "uint64"; "float32";
           "float64"; "time.Time"; "json.RawMessage"]%string.

Definition isStructNamedType (t : gostring) : bool :=
  if HasPrefix t (str "[]") || HasPrefix t (str "map[") then false
  else if bool_decide (t ∈ basicTypes) then false
  else if bool_decide (t = str "decimal.Decimal") then true
  else true.

(** [reCollection = ^Collection\((.+)\)$]: the submatch, when the whole
    string is [Collection(] + inner + [)] with a non-empty inner part that
    holds no line feed (which [.] does not match). *)
Definition reCollection (raw : gostring) : option gostring :=
  if HasPrefix raw (str "Collection(") && HasSuffix raw (str ")") then
    let inner := drop 11 (take (length raw - 1) raw) in
    if bool_decide (inner ≠ []) && bool_decide (10%N ∉ inner)
    then Some inner else None
  else None.


(** [if nullable { return "*T" }; return "T"]. *)
Definition ptrIf (nullable : bool) (t : string) : gostring :=
  if nullable then str "*" ++ str t else str t.
Arguments ptrIf nullable t%_string.

(** [mapEdmToGo]: the Go type, and whether [time] and [decimal] are needed. *)
Definition mapEdmToGo (st : genState) (edm : gostring) (nullable : bool)
  : gostring * bool * bool :=
  if isLit edm "Edm.String" then (ptrIf nullable "string", false, false)
  else if isLit edm "Edm.Boolean" then (ptrIf nullable "bool", false, false)
  else if isLit edm "Edm.Byte" then (ptrIf nullable "uint8", false, false)
  else if isLit edm "Edm.SByte" then (ptrIf nullable "int8", false, false)
  else if isLit edm "Edm.Int16" then (ptrIf nullable "int16", false, false)
  else if isLit edm "Edm.Int32" then (ptrIf nullable "int32", false, false)
  else if isLit edm "Edm.Int64" then (ptrIf nullable "int64", false, false)
  else if isLit edm "Edm.Single" then (ptrIf nullable "float32", false, false)
  else if isLit edm "Edm.Double" then (ptrIf nullable "float64", false, false)
  else if isLit edm "Edm.Decimal" then
    if isLit (DecimalMode (opts st)) "string" then (ptrIf nullable "string", false, false)
    else (ptrIf nullable "decimal.Decimal", false, true)
  else if isLit edm "Edm.Date" || isLit edm "Edm.DateTime"
          || isLit edm "Edm.DateTimeOffset" then (str "time.Time", true, false)
  else if isLit edm "Edm.TimeOfDay" || isLit edm "Edm.Time" then
    (ptrIf nullable "string", false, false)
  else if isLit edm "Edm.Duration" then (ptrIf nullable "string", false, false)
  else if isLit edm "Edm.Binary" then (str "[]byte", false, false)
  else if isLit edm "Edm.Guid" then (ptrIf nullable "string", false, false)
  else (ptrIf nullable "string", false, false).

(** [resolveTypeRef] on a reference that is not a collection. *)
Definition resolveScalar (st : genState) (raw : gostring)
    (nullable : option bool) (ctxNS : gostring) : gostring * genState :=
  if HasPrefix raw (str "Edm.") then
    let '(t, needsTime, needsDec) :=
      mapEdmToGo st raw (boolOrDefault nullable true) in
    let st1 := if needsTime then set_useTime st else st in
    let st2 := if needsDec then set_useDecimal st1 else st1 in
    (t, st2)
  else
    let qn := if negb (Contains raw (str ".")) then ctxNS ++ str "." ++ raw
              else raw in
    let goName := mapGet (typeNameMap st) qn in
    if bool_decide (goName = []) then (str "interface{}", st)
    else
      let isNullable := boolOrDefault nullable true in
      if isNullable && isStructNamedType goName then (str "*" ++ goName, st)
      else (goName, st).

(** The recursion of [resolveTypeRef] descends into the submatch of
    [reCollection], which is shorter than the reference; [n] bounds the
    depth and the length of the reference is always enough
    ([resolveTypeRef_eq] below). *)
Fixpoint resolveTypeRef_rec (n : nat) (st : genState) (raw : gostring)
    (nullable : option bool) (ctxNS : gostring) : gostring * genState :=
  match reCollection raw, n with
  | Some m1, S n' =>
      let '(inner, st') := resolveTypeRef_rec n' st m1 None ctxNS in
      (str "[]" ++ stripPointer inner, st')
  | _, _ => resolveScalar st raw nullable ctxNS
  end.

Definition resolveTypeRef (st : genState) (raw : gostring)
    (nullable : option bool) (ctxNS : gostring) : gostring * genState :=
  resolveTypeRef_rec (length raw) st raw nullable ctxNS.

(** *** [generate]: the name tables (lines 567 to 619) *)

Section Generate.
Context (U : UnicodeTables).

(** The qualified names one schema registers in [knownTypes]. *)
Definition schemaQNames (s : Schema) : gset gostring :=
  let qn (name : gostring) := Namespace s ++ str "." ++ name in
  set_map qn (dom (EntityTypes s))
  ∪ set_map qn (dom (ComplexTypes s))
  ∪ set_map qn (dom (EnumTypes s)).

Definition registerKnown (schemas : list Schema) : gset gostring :=
  foldl (λ known s, schemaQNames s ∪ known) ∅ schemas.

(** [conflictNames[base]++] for every known qualified name. *)
Definition countConflicts (known : gset gostring) : gmap gostring Z :=
  set_fold (λ qn conflictNames,
              let base := baseNameFromQualified qn in
              <[base := default 0 (conflictNames !! base) + 1]> conflictNames)
           ∅ known.

Definition goTypeName (needPrefix : bool) (aliases : gmap gostring gostring)
    (conflictNames : gmap gostring Z) (qn : gostring) : gostring :=
  let '(ns, base) := splitQualified qn in
  let goName := goExported U base in
  if needPrefix || bool_decide (1 < default 0 (conflictNames !! base))
  then mapGet aliases ns ++ goName
  else goName.

Definition needPrefix (o : Options) (nsList : list gostring) : bool :=
  isLit (NsPrefixMode o) "always"
  || isLit (NsPrefixMode o) "auto" && bool_decide (1 < length nsList)%nat.

(** The state [generate] has built when it starts to emit declarations. *)
Definition generateState (schemas : list Schema) (o : Options) : genState :=
  let nsList := distinctNamespaces schemas in
  let needPrefix := needPrefix o nsList in
  let aliases : gmap gostring gostring :=
    foldl (λ m ns, <[ns := namespaceAlias U ns]> m) ∅ nsList in
  let known := registerKnown schemas in
  let conflictNames := countConflicts known in
  let names : gmap gostring gostring :=
    set_fold (λ qn m, <[qn := goTypeName needPrefix aliases conflictNames qn]> m)
             ∅ known in
  {| opts := o; nsAliases := aliases; useTime := false; useDecimal := false;
     knownTypes := known; typeNameMap := names |}.

End Generate.


(** *** [parseFlags] *)

(** How a step of the program ends: it goes on with a value, or the
    process stops with a fatal error. *)
Inductive outcome (A : Type) :=
  | Continue (a : A)
  | Fatal (msg : gostring).
Arguments Continue {A} a.
Arguments Fatal {A} msg.

(** A line written to standard error: the format and its argument. *)
Record diagnostic := { dFormat : string; dArg : gostring }.

Section Flags.
Context (U : UnicodeTables).

(** [parseFlags] once [flag.Parse] has stored the command line values:
    the options it returns and what it writes to standard error. *)
Definition parseFlags (inPath outPath pkg decimal nsPrefix : gostring)
  : outcome Options * list diagnostic :=
  let decimalMode := strings_ToLower U decimal in
  let '(decimalMode, w1) :=
    if isLit decimalMode "shopspring" || isLit decimalMode "string"
    then (decimalMode, [])
    else (str "shopspring",
          [{| dFormat := "warning: -decimal=%q invalid; falling back to shopspring\n";
              dArg := decimalMode |}]) in
  let nsPrefixMode := strings_ToLower U nsPrefix in
  let '(nsPrefixMode, w2) :=
    if isLit nsPrefixMode "auto" || isLit nsPrefixMode "always"
       || isLit nsPrefixMode "none"
    then (nsPrefixMode, [])
    else (str "auto",
          [{| dFormat := "warning: -ns-prefix=%q invalid; falling back to auto\n";
              dArg := nsPrefixMode |}]) in
  (Continue {| PkgName := pkg; DecimalMode := decimalMode;
               NsPrefixMode := nsPrefixMode; InPath := inPath;
               OutPath := outPath |},
   w1 ++ w2).

End Flags.

(** *** [emitEnum]: the constants (lines 750 to 767) *)

(** The right-hand side of an emitted constant. *)
Inductive constExpr :=
  | Iota
  | Literal (text : gostring).

(** One line of the emitted [const ( ... )] block: the constant's name,
    its type and its expression when the line spells them out. *)
Record constSpec := {
  cName : gostring;
  cType : gostring;
  cExpr : option constExpr
}.

Definition castEnumValue (goUnder value : gostring) : gostring :=
  if HasPrefix goUnder (str "int") || HasPrefix goUnder (str "uint")
     || HasPrefix goUnder (str "byte")
  then value else value.

Section EmitEnum.
Context (U : UnicodeTables).

Definition emitEnumConsts (goName goUnder : gostring)
    (members : list EnumMember) : list constSpec :=
  imap (λ idx m,
          let constName := goName ++ goExported U (mName m) in
          if bool_decide (mValue m ≠ []) then
            {| cName := constName; cType := goName;
               cExpr := Some (Literal (castEnumValue goUnder (mValue m))) |}
          else if bool_decide (idx = 0%nat) then
            {| cName := constName; cType := goName; cExpr := Some Iota |}
          else
            {| cName := constName; cType := goName; cExpr := None |})
       members.

End EmitEnum.

(** The text of one emitted line. *)
Definition renderConstSpec (c : constSpec) : gostring :=
  match cExpr c with
  | Some (Literal v) =>
      str "  " ++ cName c ++ str " " ++ cType c ++ str " = " ++ v ++ nl
  | Some Iota => str "  " ++ cName c ++ str " " ++ cType c ++ str " = iota" ++ nl
  | None => str "  " ++ cName c ++ nl
  end.

(** What the Go language makes of such a block: [iota] is the index of
    the line, and a line without an expression repeats the expression of
    the nearest line above that has one.  A literal is read when it is a
    decimal integer in canonical form; [None] stands for any other text
    and for a first line without an expression. *)
Definition evalConstExpr (idx : nat) (e : constExpr) : option Z :=
  match e with
  | Iota => Some (Z.of_nat idx)
  | Literal v =>
      match Atoi v with
      | Some z => if bool_decide (itoa z = v) then Some z else None
      | None => None
      end
  end.

Fixpoint constValuesFrom (idx : nat) (prev : option constExpr)
    (cs : list constSpec) : list (gostring * option Z) :=
  match cs with
  | [] => []
  | c :: rest =>
      let e := match cExpr c with Some e => Some e | None => prev end in
      (cName c, e ≫= evalConstExpr idx) :: constValuesFrom (S idx) e rest
  end.

Definition constValues (cs : list constSpec) : list (gostring * option Z) :=
  constValuesFrom 0 None cs.

(** *** [emitEnum]: the emitted [UnmarshalJSON], on a JSON string *)

Inductive decoded :=
  | DecodedOk (v : Z)
  | InvalidValue (p : gostring).   (* fmt.Errorf("invalid T value %q", p) *)

(** The loop over [strings.Split(s, ",")] of the flags decoder. *)
Fixpoint decodeFlagParts (nameToValue : gmap gostring Z) (v : Z)
    (parts : list gostring) : decoded :=
  match parts with
  | [] => DecodedOk v
  | p :: rest =>
      let p := TrimSpace p in
      if bool_decide (p = []) then decodeFlagParts nameToValue v rest
      else match nameToValue !! p with
           | None => InvalidValue p
           | Some mv => decodeFlagParts nameToValue (Z.lor v mv) rest
           end
  end.

(** The branch emitted when [e.IsFlags], from the unquoted string [s] on. *)
Definition unmarshalFlags (nameToValue : gmap gostring Z) (s : gostring)
  : decoded :=
  if bool_decide (s = []) then DecodedOk 0
  else decodeFlagParts nameToValue 0 (Split s 44%N).

(** The branch emitted for an enum without flags. *)
Definition unmarshalSingle (nameToValue : gmap gostring Z) (s : gostring)
  : decoded :=
  match nameToValue !! s with
  | Some v => DecodedOk v
  | None => InvalidValue s
  end.

(** The maps the emitted code declares for an enum, from the member
    names and the values of their constants.  The Go compiler rejects a
    map literal with a repeated key, so the names are distinct and so are
    the values. *)
Definition nameToValueMap (members : list (gostring * Z)) : gmap gostring Z :=
  list_to_map members.

Definition valueToNameMap (members : list (gostring * Z)) : gmap Z gostring :=
  list_to_map ((λ nv, (nv.2, nv.1)) <$> members).

(** A JSON value as the emitted methods meet it: [null], a string, a
    number written as an integer, and anything else (a number with a
    fraction or an exponent, a boolean, an array, an object, text that
    is not JSON). *)
Inductive wire :=
  | WireNull
  | WireString (s : gostring)
  | WireNumber (n : Z)
  | WireOther.

(** The values of the underlying Go type [goUnder] of an enum. *)
Record intRange := { lowest : Z; highest : Z }.

Definition int32Range : intRange :=
  {| lowest := - 2 ^ 31; highest := 2 ^ 31 - 1 |}.

(** What [UnmarshalJSON] leaves behind: the value it stores, the error for
    a name that is no member, or the error of [json.Unmarshal]. *)
Inductive unmarshalled :=
  | Stored (v : Z)
  | InvalidMember (p : gostring)
  | JsonError.

Definition ofDecoded (d : decoded) : unmarshalled :=
  match d with
  | DecodedOk v => Stored v
  | InvalidValue p => InvalidMember p
  end.

(** The emitted [UnmarshalJSON].  A number goes through
    [json.Unmarshal(b, &n)] with [n] of the underlying type, which fails
    on a number that is not an integer of that type. *)
Definition unmarshalJSON (isFlags : bool) (under : intRange)
    (nameToValue : gmap gostring Z) (b : wire) : unmarshalled :=
  match b with
  | WireNull => Stored 0
  | WireString s =>
      ofDecoded (if isFlags then unmarshalFlags nameToValue s
                 else unmarshalSingle nameToValue s)
  | WireNumber n =>
      if bool_decide (lowest under ≤ n ≤ highest under) then Stored n
      else JsonError
  | WireOther => JsonError
  end.

(** The emitted [MarshalJSON]: the name when the value has one, the
    number otherwise. *)
Definition marshalJSON (valueToName : gmap Z gostring) (t : Z) : wire :=
  match valueToName !! t with
  | Some s => WireString s
  | None => WireNumber t
  end.

(** *** [safeFieldName] *)

Definition goKeywords : list gostring :=
  str <$> ["break"; "default"; "func"; "interface"; "select"; "case";
           "defer"; "go"; "map"; "struct"; "chan"; "else"; "goto"; "package";
           "switch"; "const"; "fallthrough"; "if"; "range"; "type";
           "continue"; "for"; "import"; "return"; "var"]%string.

Definition safeFieldName (U : UnicodeTables) (name : gostring) : gostring :=
  let n := goExported U name in
  if bool_decide (n ∈ goKeywords) then n ++ str "_" else n.

End Main.

(** ** The helpers the three metadata-struct generators share

    [extractEdmTypeName] and [isCollection] have the same text in
    [grok4fastWorking/main.go], in the Zod generator and in the ArkType
    generator. *)

Module EdmName.

Definition extractEdmTypeName (edmType : gostring) : gostring :=
  let fullType := TrimPrefix edmType (str "Collection(") in
  let fullType := TrimSuffix fullType (str ")") in
  match SplitN2 fullType (str ".") with
  | [_; local] => local
  | _ => fullType
  end.

Definition isCollection (t : gostring) : bool * gostring :=
  if HasPrefix t (str "Collection(") && HasSuffix t (str ")")
  then (true, drop 11 (take (length t - 1) t))
  else (false, t).

(** A map literal of the source, keyed by string. *)
Definition table (l : list (string * string)) : gmap gostring gostring :=
  list_to_map ((λ kv, (str kv.1, str kv.2)) <$> l).

(** The metadata structs, as far as the generators read them. *)
Record EnumMember := { mName : gostring; mValue : gostring }.

Record EnumType := {
  enName : gostring;
  Members : list EnumMember
}.

Record Property := {
  pName : gostring;
  pType : gostring;
  pNullable : bool
}.

Record NavigationProperty := {
  nName : gostring;
  nType : gostring
}.

Record EntityType := {
  etName : gostring;
  etProperties : list Property;
  etNavigationProperties : list NavigationProperty
}.

Record ComplexType := {
  ctName : gostring;
  ctProperties : list Property;
  ctNavigationProperties : list NavigationProperty
}.

(** The [typ interface{}] argument and its type switch. *)
Inductive anyType :=
  | IsEntity (t : EntityType)
  | IsComplex (t : ComplexType)
  | IsOther.

Definition typName (typ : anyType) : gostring :=
  match typ with
  | IsEntity t => etName t | IsComplex t => ctName t | IsOther => []
  end.

Definition typProps (typ : anyType) : list Property :=
  match typ with
  | IsEntity t => etProperties t | IsComplex t => ctProperties t
  | IsOther => []
  end.

Definition typNavs (typ : anyType) : list NavigationProperty :=
  match typ with
  | IsEntity t => etNavigationProperties t
  | IsComplex t => ctNavigationProperties t
  | IsOther => []
  end.

(** A [log.Printf] warning about an enum value that does not parse. *)
Record enumWarning := {
  wValue : gostring;
  wEnum : gostring;
  wMember : gostring;
  wUsing : Z
}.

End EdmName.

(** ** [grok4fastWorking/main.go] *)

Module Grok.
Import EdmName.

Definition edmToGo : gmap gostring gostring :=
  table [("String", "string"); ("Int16", "int16"); ("Int32", "int32");
         ("Int64", "int64"); ("Byte", "uint8"); ("SByte", "int8");
         ("Boolean", "bool"); ("Decimal", "float64"); ("Double", "float64");
         ("Single", "float32"); ("Guid", "string"); ("Date", "time.Time");
         ("DateTimeOffset", "time.Time"); ("TimeOfDay", "time.Time");
         ("Binary", "[]byte"); ("Stream", "[]byte");
         ("Duration", "string")]%string.

Definition getGoType (edmType : gostring) (isNullable : bool) : gostring :=
  let '(isColl, innerEdm) := isCollection edmType in
  let innerName := extractEdmTypeName innerEdm in
  let baseGoType :=
    match edmToGo !! innerName with
    | Some primitive => primitive
    | None =>
        if negb isColl && isNullable then str "*" ++ innerName else innerName
    end in
  if isColl then str "[]" ++ baseGoType
  else if isNullable then
    if isLit baseGoType "string" || isLit baseGoType "[]byte"
       || isLit baseGoType "time.Time"
    then baseGoType
    else if negb (HasPrefix baseGoType (str "*")) then str "*" ++ baseGoType
    else baseGoType
  else baseGoType.

(** One emitted constant: [fmt.Sprintf("\t%s%s %s = %s\n", ...)]. *)
Record enumLine := {
  lEnum : gostring;
  lMember : gostring;
  lVal : gostring
}.

(** The loop of [generateEnum] from the running counter [currentValue]:
    the lines it writes and the warnings it logs. *)
Fixpoint enumLoop (eName : gostring) (currentValue : Z)
    (members : list EnumMember) : list enumLine * list enumWarning :=
  match members with
  | [] => ([], [])
  | m :: rest =>
      if bool_decide (mValue m ≠ []) then
        match Atoi (mValue m) with
        | None =>
            let '(ls, ws) := enumLoop eName currentValue rest in
            ({| lEnum := eName; lMember := mName m;
                lVal := itoa currentValue |} :: ls,
             {| wValue := mValue m; wEnum := eName; wMember := mName m;
                wUsing := currentValue |} :: ws)
        | Some val =>
            let '(ls, ws) := enumLoop eName (wrapInt (val + 1)) rest in
            ({| lEnum := eName; lMember := mName m; lVal := itoa val |} :: ls,
             ws)
        end
      else
        let '(ls, ws) := enumLoop eName (wrapInt (currentValue + 1)) rest in
        ({| lEnum := eName; lMember := mName m;
            lVal := itoa currentValue |} :: ls, ws)
  end.

Section Render.
(** [strings.Title], of the Go library. *)
Context (Title : gostring → gostring).

Definition renderLine (l : enumLine) : gostring :=
  [9%N] ++ lEnum l ++ Title (lMember l) ++ str " " ++ lEnum l ++ str " = "
  ++ lVal l ++ nl.

(** [generateEnum]: the text and the log. *)
Definition generateEnum (e : EnumType) : gostring * list enumWarning :=
  let '(ls, ws) := enumLoop (enName e) 0 (Members e) in
  (str "type " ++ enName e ++ str " int" ++ nl ++ nl
   ++ str "const (" ++ nl
   ++ concat (renderLine <$> ls)
   ++ str ")" ++ nl ++ nl,
   ws).

End Render.

End Grok.

(** ** The Zod generator *)

Module Zod.
Import EdmName.

Definition edmToZod : gmap gostring gostring :=
  table [("String", "z.string()"); ("Int16", "z.number().int()");
         ("Int32", "z.number().int()"); ("Int64", "z.number().int()");
         ("Byte", "z.number().int().nonnegative().max(255)");
         ("SByte", "z.number().int().min(-128).max(127)");
         ("Boolean", "z.boolean()"); ("Decimal", "z.number()");
         ("Double", "z.number()"); ("Single", "z.number()");
         ("Guid", "z.string().uuid()"); ("Date", "z.coerce.date()");
         ("DateTimeOffset", "z.coerce.date()"); ("TimeOfDay", "z.string()");
         ("Binary", "z.instanceof(Uint8Array)");
         ("Stream", "z.instanceof(Uint8Array)");
         ("Duration", "z.string()")]%string.

(** [getZodType]: the Zod expression, and the types it logged a warning
    about. *)
Definition getZodType (edmType : gostring) (isNullable : bool)
    (targetSchemaName : gostring) : gostring * list gostring :=
  let '(isColl, innerEdm) := isCollection edmType in
  let innerName := extractEdmTypeName innerEdm in
  let '(baseZod, log) :=
    match edmToZod !! innerName with
    | Some zod => (zod, [])
    | None =>
        if bool_decide (innerName ≠ []) then
          let targetSchemaName :=
            if bool_decide (targetSchemaName = [])
            then innerName ++ str "Schema" else targetSchemaName in
          (str "z.lazy(() => " ++ targetSchemaName ++ str ")", [])
        else (str "z.unknown()", [edmType])
    end in
  if isColl then
    ((str "z.array(" ++ baseZod ++ str ")") ++ str ".nullish()", log)
  else (baseZod ++ str ".nullish()", log).

(** The loop of [generateZodEnum] from the running counter
    [currentValue]: for every member, its name and the text [valStr]
    written after [numeric value:]. *)
Fixpoint zodEnumLoop (currentValue : Z) (members : list EnumMember)
  : list (gostring * gostring) :=
  match members with
  | [] => []
  | m :: rest =>
      if bool_decide (mValue m ≠ []) then
        match Atoi (mValue m) with
        | None =>
            (mName m,
             itoa currentValue ++ str " /* parsed error: " ++ mValue m
             ++ str " */")
            :: zodEnumLoop currentValue rest
        | Some val =>
            (mName m, itoa val) :: zodEnumLoop (wrapInt (val + 1)) rest
        end
      else
        (mName m, itoa currentValue)
        :: zodEnumLoop (wrapInt (currentValue + 1)) rest
  end.

(** The closure [addType] of [collectTypeAndEnumDeps], on the pair
    [(typeDeps, enumDeps)] it updates. *)
Definition addType (selfName : gostring)
    (entitySet complexSet enumSet : gset gostring)
    (deps : gset gostring * gset gostring) (name : gostring)
  : gset gostring * gset gostring :=
  let '(typeDeps, enumDeps) := deps in
  if bool_decide (name = []) || bool_decide (name = selfName) then deps
  else if bool_decide (is_Some (edmToZod !! name)) then deps
  else if bool_decide (name ∈ enumSet) then (typeDeps, {[name]} ∪ enumDeps)
  else if bool_decide (name ∈ entitySet) then ({[name]} ∪ typeDeps, enumDeps)
  else if bool_decide (name ∈ complexSet) then ({[name]} ∪ typeDeps, enumDeps)
  else ({[name]} ∪ typeDeps, enumDeps).

Definition collectTypeAndEnumDeps (typ : anyType)
    (entitySet complexSet enumSet : gset gostring)
  : gset gostring * gset gostring :=
  let selfName := typName typ in
  let props := typProps typ in
  let navs := typNavs typ in
  let add := addType selfName entitySet complexSet enumSet in
  let deps : gset gostring * gset gostring := (∅, ∅) in
  let deps :=
    foldl (λ deps p, let '(_, inner) := isCollection (pType p) in
                     add deps (extractEdmTypeName inner)) deps props in
  let deps :=
    foldl (λ deps n, let '(_, inner) := isCollection (nType n) in
                     add deps (extractEdmTypeName inner)) deps navs in
  deps.

(** [toSortedSlice]. *)
Definition toSortedSlice (set : gset gostring) : list gostring :=
  Main.sortStrings (elements set).

End Zod.

(** ** The ArkType generator *)

Module Ark.
Import EdmName.

Definition edmToArkBase : gmap gostring gostring :=
  table [("String", "string"); ("Int16", "number"); ("Int32", "number");
         ("Int64", "number"); ("Byte", "number"); ("SByte", "number");
         ("Boolean", "boolean"); ("Decimal", "number"); ("Double", "number");
         ("Single", "number"); ("Guid", "string"); ("Date", "string");
         ("DateTimeOffset", "string"); ("TimeOfDay", "string");
         ("Binary", "string"); ("Stream", "string");
         ("Duration", "string")]%string.

Definition arkPropTypeDSL (edmType : gostring) (isEnum : bool)
    (enumVals : list gostring) : gostring :=
  let '(isColl, inner) := isCollection edmType in
  let innerName := extractEdmTypeName inner in
  if isEnum && bool_decide (0 < length enumVals)%nat then
    let parts := (λ v, str "'" ++ v ++ str "'") <$> enumVals in
    let union := Join parts (str "|") in
    if isColl then union ++ str "[]|null" else union ++ str "|null"
  else
    match edmToArkBase !! innerName with
    | Some base =>
        if isColl then base ++ str "[]|null" else base ++ str "|null"
    | None => if isColl then str "object[]|null" else str "object|null"
    end.


Section Generate.
(** [strings.Title], of the Go library. *)
Context (Title : gostring → gostring).


End Generate.

(** The loop of [generateArkEnum] (and of [writePerTypeOutputs]) that
    keeps one copy of every member name: the set [seen] and the slice
    [vals]. *)
Definition uniqueNames (members : list EnumMember) : list gostring :=
  (foldl (λ '(seen, vals) m,
            if negb (bool_decide (mName m ∈ seen))
            then (({[mName m]} ∪ seen) : gset gostring, vals ++ [mName m])
            else (seen, vals))
         (∅, []) members).2.

Definition generateArkEnum (e : EnumType) : gostring :=
  let vals := uniqueNames (Members e) in
  let b := str "export const " ++ enName e ++ str "Type = type(" ++ [34%N] in
  let b :=
    (foldl (λ '(i, b) v,
              let b := if bool_decide (0 < i)%nat then b ++ str "|" else b in
              (S i, b ++ str "'" ++ v ++ str "'"))
           (0%nat, b) vals).2 in
  b ++ [34%N] ++ str ");" ++ nl ++ nl.

End Ark.

(** * Properties *)

(** ** Go strings *)

Module GoStrFacts.

(** Closes a decidable closed goal by evaluation. *)
Ltac by_compute := apply (bool_decide_unpack _); vm_compute; exact I.

Lemma HasPrefix_app (p s : gostring) : HasPrefix (p ++ s) p = true.
Proof.
  unfold HasPrefix. apply bool_decide_eq_true.
  by rewrite take_app_length.
Qed.

Lemma HasPrefix_true (s p : gostring) :
  HasPrefix s p = true → s = p ++ drop (length p) s.
Proof.
  unfold HasPrefix. intros H%bool_decide_eq_true.
  rewrite <- H at 1. by rewrite take_drop.
Qed.

Lemma HasSuffix_app (s p : gostring) : HasSuffix (s ++ p) p = true.
Proof.
  unfold HasSuffix. apply andb_true_intro. split; apply bool_decide_eq_true.
  - rewrite length_app. lia.
  - rewrite length_app.
    replace (length s + length p - length p)%nat with (length s) by lia.
    by rewrite drop_app_length.
Qed.

Lemma HasSuffix_true (s p : gostring) :
  HasSuffix s p = true → s = take (length s - length p) s ++ p.
Proof.
  unfold HasSuffix. intros [_ H%bool_decide_eq_true]%andb_prop.
  rewrite <- H at 2. by rewrite take_drop.
Qed.

Lemma TrimSuffix_app (s p : gostring) : TrimSuffix (s ++ p) p = s.
Proof.
  unfold TrimSuffix. rewrite HasSuffix_app, length_app.
  replace (length s + length p - length p)%nat with (length s) by lia.
  by rewrite take_app_length.
Qed.


End GoStrFacts.

(** ** [main.go]: [resolveTypeRef] *)

Module ResolveFacts.
Import Main GoStrFacts.

Lemma reCollection_shorter raw inner :
  reCollection raw = Some inner → (length inner < length raw)%nat.
Proof.
  unfold reCollection. intros H.
  destruct (HasPrefix raw (str "Collection(") && HasSuffix raw (str ")")) eqn:E;
    [|done].
  destruct (_ && _) in H; [|done]. injection H as <-.
  apply andb_prop in E as [_ E]. unfold HasSuffix in E.
  apply andb_prop in E as [E _]. apply bool_decide_eq_true in E.
  change (length (str ")")) with 1%nat in E.
  rewrite length_drop, length_take. lia.
Qed.

Lemma reCollection_short raw : (length raw < 12)%nat → reCollection raw = None.
Proof.
  intros Hl. destruct (reCollection raw) as [inner|] eqn:E; [|done].
  exfalso. unfold reCollection in E.
  destruct (HasPrefix raw (str "Collection(") && HasSuffix raw (str ")")) eqn:E';
    [|done].
  apply andb_prop in E' as [E1 E2].
  unfold HasPrefix in E1. apply bool_decide_eq_true in E1.
  assert (length (take (length (str "Collection(")) raw) = 11%nat) as Hlen
    by (by rewrite E1).
  rewrite length_take in Hlen. change (length (str "Collection(")) with 11%nat in Hlen.
  destruct (_ && _) eqn:E3 in E; [|done]. injection E as <-.
  apply andb_prop in E3 as [E3 _]. apply bool_decide_eq_true in E3.
  apply E3. apply nil_length_inv. rewrite length_drop, length_take. lia.
Qed.

(** Extra depth changes nothing. *)
Lemma resolveTypeRef_rec_enough n st raw nullable ctxNS :
  (length raw ≤ n)%nat →
  resolveTypeRef_rec n st raw nullable ctxNS
  = resolveTypeRef_rec (length raw) st raw nullable ctxNS.
Proof.
  revert raw nullable.
  induction n as [n IH] using lt_wf_ind. intros raw nullable Hn.
  destruct (reCollection raw) as [m1|] eqn:E.
  - pose proof (reCollection_shorter _ _ E) as Hlt.
    destruct n as [|n]; [lia|].
    destruct (length raw) as [|k] eqn:Hk; [lia|].
    simpl. rewrite E.
    rewrite (IH n) by lia. rewrite (IH k) by lia. done.
  - destruct n, (length raw); simpl; rewrite ?E; done.
Qed.

(** The defining equation of [resolveTypeRef], as the source reads. *)
Lemma resolveTypeRef_eq st raw nullable ctxNS :
  resolveTypeRef st raw nullable ctxNS =
  match reCollection raw with
  | Some m1 =>
      let '(inner, st') := resolveTypeRef st m1 None ctxNS in
      (str "[]" ++ stripPointer inner, st')
  | None => resolveScalar st raw nullable ctxNS
  end.
Proof.
  unfold resolveTypeRef.
  destruct (reCollection raw) as [m1|] eqn:E.
  - pose proof (reCollection_shorter _ _ E) as Hlt.
    destruct (length raw) as [|k] eqn:Hk; [lia|].
    simpl. rewrite E. rewrite (resolveTypeRef_rec_enough k) by lia. done.
  - destruct (length raw); simpl; rewrite E; done.
Qed.

(** [reCollection] recognises a wrapper around a non-empty, one-line
    inner reference, and hands back that reference. *)
Lemma reCollection_wrap (X : gostring) :
  X ≠ [] → 10%N ∉ X →
  reCollection (str "Collection(" ++ X ++ str ")") = Some X.
Proof.
  intros Hne Hnl. unfold reCollection.
  rewrite HasPrefix_app.
  rewrite (app_assoc (str "Collection(") X (str ")")), HasSuffix_app.
  change (true && true) with true. cbv iota.
  assert (drop 11 (take (length ((str "Collection(" ++ X) ++ str ")") - 1)
                        ((str "Collection(" ++ X) ++ str ")")) = X) as ->.
  { rewrite length_app. change (length (str ")")) with 1%nat.
    replace (length (str "Collection(" ++ X) + 1 - 1)%nat
      with (length (str "Collection(" ++ X)) by lia.
    rewrite take_app_length.
    by apply drop_app_length'. }
  rewrite !bool_decide_eq_true_2 by done. done.
Qed.

(** Whatever [reCollection] matches is such a wrapper. *)
Lemma reCollection_Some (raw X : gostring) :
  reCollection raw = Some X →
  raw = str "Collection(" ++ X ++ str ")" ∧ X ≠ [] ∧ 10%N ∉ X.
Proof.
  unfold reCollection. intros H.
  destruct (HasPrefix raw (str "Collection(")) eqn:E1; [|done].
  destruct (HasSuffix raw (str ")")) eqn:E2; [|done].
  simpl in H.
  destruct (bool_decide (_ ≠ [])) eqn:E3; [|done].
  destruct (bool_decide (10%N ∉ _)) eqn:E4; [|done].
  simpl in H. injection H as <-.
  apply bool_decide_eq_true in E3, E4. split; [|done].
  apply HasSuffix_true in E2. change (length (str ")")) with 1%nat in E2.
  rewrite E2 at 1. rewrite app_assoc. f_equal.
  assert (HasPrefix (take (length raw - 1) raw) (str "Collection(") = true) as Hp.
  { unfold HasPrefix in *. apply bool_decide_eq_true in E1.
    apply bool_decide_eq_true.
    destruct (decide (length (take (length raw - 1) raw) < 11)%nat) as [Hl|Hl].
    - exfalso. apply E3. apply nil_length_inv. rewrite length_drop. lia.
    - rewrite length_take in Hl. change (length (str "Collection(")) with 11%nat in *.
      rewrite take_take. rewrite Nat.min_l by lia. done. }
  apply HasPrefix_true in Hp. exact Hp.
Qed.


(** An empty load under the default options: a state to resolve
    primitive references in. *)
Definition defaultOptions : Options :=
  {| PkgName := str "models"; DecimalMode := str "shopspring";
     NsPrefixMode := str "auto"; InPath := []; OutPath := [] |}.

Definition emptyState : genState := generateState asciiTables [] defaultOptions.

(** A reference that is not a collection goes down the scalar path. *)
Lemma resolveTypeRef_scalar st raw h ctxNS :
  reCollection raw = None →
  resolveTypeRef st raw h ctxNS = resolveScalar st raw h ctxNS.
Proof. intros E. by rewrite resolveTypeRef_eq, E. Qed.

(** A reference [Collection(X)], with [X] non-empty and on one line,
    resolves whatever the hint to the resolution of [X] under the nil
    hint, made a slice of the element type without its pointer. *)
Lemma resolveTypeRef_collection
    (st : genState) (X : gostring) (h : option bool) (ctxNS : gostring) :
  X ≠ [] → 10%N ∉ X →
  resolveTypeRef st (str "Collection(" ++ X ++ str ")") h ctxNS
  = (str "[]" ++ stripPointer (resolveTypeRef st X None ctxNS).1,
     (resolveTypeRef st X None ctxNS).2).
Proof.
  intros Hne Hnl.
  rewrite resolveTypeRef_eq, (reCollection_wrap X Hne Hnl).
  by destruct (resolveTypeRef st X None ctxNS).
Qed.

End ResolveFacts.

(** ** Nullable primitives that have an empty value *)

Module NullableFacts.
Import GoStrFacts ResolveFacts.

Ltac resolve_primitive :=
  rewrite resolveTypeRef_scalar by (vm_compute; reflexivity);
  vm_compute; reflexivity.

(** [main.go] gives the date and time primitives and the binary
    primitive a Go type without pointer, whatever the nullability. *)
Lemma main_date_binary_no_pointer st (h : option bool) ctxNS :
  Forall (λ edm, (Main.resolveTypeRef st edm h ctxNS).1 = str "time.Time")
         [str "Edm.Date"; str "Edm.DateTime"; str "Edm.DateTimeOffset"]
  ∧ (Main.resolveTypeRef st (str "Edm.Binary") h ctxNS).1 = str "[]byte".
Proof.
  split; [repeat constructor|]; destruct h as [[]|]; resolve_primitive.
Qed.

(** [main.go] gives [Edm.String] a pointer unless the property says
    [Nullable="false"]. *)
Lemma main_string_pointer st ctxNS :
  (Main.resolveTypeRef st (str "Edm.String") (Some true) ctxNS).1 = str "*string"
  ∧ (Main.resolveTypeRef st (str "Edm.String") None ctxNS).1 = str "*string"
  ∧ (Main.resolveTypeRef st (str "Edm.String") (Some false) ctxNS).1 = str "string".
Proof. repeat split; resolve_primitive. Qed.

(** The primitives of [edmToGo] whose Go type has an empty value. *)
Definition emptyRepresentable : list (gostring * gostring) :=
  [(str "Edm.String", str "string"); (str "Edm.Guid", str "string");
   (str "Edm.Duration", str "string"); (str "Edm.Binary", str "[]byte");
   (str "Edm.Stream", str "[]byte"); (str "Edm.Date", str "time.Time");
   (str "Edm.DateTimeOffset", str "time.Time");
   (str "Edm.TimeOfDay", str "time.Time")].

(** The claim of C3 fails on [main.go]: [Edm.String] with nullable=true
    resolves to a pointer, not to the plain text type. *)
Lemma C3_counterexample_main_string_pointer :
  (Main.resolveTypeRef emptyState (str "Edm.String") (Some true) (str "NS")).1
  = str "*string"
  ∧ (Main.resolveTypeRef emptyState (str "Edm.String") (Some true) (str "NS")).1
    ≠ str "string"
  ∧ HasPrefix (Main.resolveTypeRef emptyState (str "Edm.String") (Some true)
                 (str "NS")).1 (str "*") = true.
Proof. vm_compute. repeat split; discriminate. Qed.

(** C3, amended: in [grok4fastWorking/main.go] a non-collection property
    of a text, binary or date/time primitive resolves to the plain Go type
    whether or not it is nullable.  In [main.go] this holds for
    [Edm.Binary], [Edm.Date], [Edm.DateTime] and [Edm.DateTimeOffset],
    for every nullability; [Edm.String] is the plain [string] only under
    nullable=false and is [*string] when nullable is true or unspecified. *)
Theorem C3_empty_representable_primitives :
  (∀ nullable,
     Forall (λ '(edm, goType), Grok.getGoType edm nullable = goType)
            emptyRepresentable)
  ∧ (∀ st h ctxNS,
       Forall (λ edm, (Main.resolveTypeRef st edm h ctxNS).1 = str "time.Time")
              [str "Edm.Date"; str "Edm.DateTime"; str "Edm.DateTimeOffset"]
       ∧ (Main.resolveTypeRef st (str "Edm.Binary") h ctxNS).1 = str "[]byte")
  ∧ (∀ st ctxNS,
       (Main.resolveTypeRef st (str "Edm.String") (Some true) ctxNS).1
       = str "*string"
       ∧ (Main.resolveTypeRef st (str "Edm.String") None ctxNS).1
         = str "*string"
       ∧ (Main.resolveTypeRef st (str "Edm.String") (Some false) ctxNS).1
         = str "string").
Proof.
  split; [|split].
  - intros []; repeat constructor.
  - apply main_date_binary_no_pointer.
  - apply main_string_pointer.
Qed.

End NullableFacts.

(** ** References that resolve to nothing known *)

Module UnknownFacts.
Import GoStrFacts ResolveFacts.

(** The qualified name [resolveTypeRef] looks up: a reference without a
    dot is taken in the namespace of the context. *)
Definition qualifiedName (raw ctxNS : gostring) : gostring :=
  if negb (Contains raw (str ".")) then ctxNS ++ str "." ++ raw else raw.

(** The cases of the [switch] of [mapEdmToGo]. *)
Definition edmPrimitives : list gostring :=
  str <$> ["Edm.String"; "Edm.Boolean"; "Edm.Byte"; "Edm.SByte"; "Edm.Int16";
           "Edm.Int32"; "Edm.Int64"; "Edm.Single"; "Edm.Double"; "Edm.Decimal";
           "Edm.Date"; "Edm.DateTime"; "Edm.DateTimeOffset"; "Edm.TimeOfDay";
           "Edm.Time"; "Edm.Duration"; "Edm.Binary"; "Edm.Guid"]%string.

Lemma mapEdmToGo_default st edm nullable :
  edm ∉ edmPrimitives →
  Main.mapEdmToGo st edm nullable = (Main.ptrIf nullable "string", false, false).
Proof.
  intros Hn. unfold Main.mapEdmToGo, isLit.
  repeat (let E := fresh "E" in
          case_bool_decide as E;
          [exfalso; apply Hn; rewrite E; by_compute|]; simpl orb; cbv iota).
  reflexivity.
Qed.

(** [main.go]: a name without entry in the type name table is [interface{}]. *)
Lemma main_unknown_interface st raw h ctxNS :
  Main.reCollection raw = None →
  HasPrefix raw (str "Edm.") = false →
  Main.mapGet (Main.typeNameMap st) (qualifiedName raw ctxNS) = [] →
  Main.resolveTypeRef st raw h ctxNS = (str "interface{}", st).
Proof.
  intros Hc Hp Hq. rewrite resolveTypeRef_scalar by done.
  unfold Main.resolveScalar. rewrite Hp.
  unfold qualifiedName in Hq. rewrite Hq.
  by rewrite bool_decide_eq_true_2.
Qed.

(** [main.go]: an [Edm.] name outside the table is a string. *)
Lemma main_unknown_primitive st raw h ctxNS :
  Main.reCollection raw = None →
  HasPrefix raw (str "Edm.") = true →
  raw ∉ edmPrimitives →
  Main.resolveTypeRef st raw h ctxNS
  = (Main.ptrIf (Main.boolOrDefault h true) "string", st).
Proof.
  intros Hc Hp Hn. rewrite resolveTypeRef_scalar by done.
  unfold Main.resolveScalar. rewrite Hp.
  by rewrite mapEdmToGo_default.
Qed.

(** The Zod expression around the base type. *)
Definition zodWrap (isColl : bool) (baseZod : gostring) : gostring :=
  if isColl then (str "z.array(" ++ baseZod ++ str ")") ++ str ".nullish()"
  else baseZod ++ str ".nullish()".

(** [getZodType] on a name that is no primitive: a lazy reference to the
    schema of that name, and [z.unknown()] only for the empty name. *)
Lemma zod_not_primitive edmType nullable target :
  let isColl := (EdmName.isCollection edmType).1 in
  let innerName :=
    EdmName.extractEdmTypeName (EdmName.isCollection edmType).2 in
  Zod.edmToZod !! innerName = None →
  (innerName ≠ [] →
   Zod.getZodType edmType nullable target
   = (zodWrap isColl
        (str "z.lazy(() => "
         ++ (if bool_decide (target = []) then innerName ++ str "Schema"
             else target) ++ str ")"), []))
  ∧ (innerName = [] →
     Zod.getZodType edmType nullable target
     = (zodWrap isColl (str "z.unknown()"), [edmType])).
Proof.
  intros isColl innerName Hz. subst isColl innerName.
  unfold Zod.getZodType, zodWrap.
  destruct (EdmName.isCollection edmType) as [c inner]. simpl in *.
  rewrite Hz. split; intros Hi.
  - rewrite bool_decide_eq_true_2 by done. by destruct c.
  - rewrite bool_decide_eq_false_2 by (by intros ?). by destruct c.
Qed.

(** The claim of C9 fails on the Zod generator: a name that matches no
    primitive and no declaration (none exists here) is not resolved to
    the unknown descriptor but to a reference to a schema of that name,
    and nothing is logged. *)
Lemma C9_counterexample_zod_lazy_reference :
  Zod.getZodType (str "NS.Mystery") false []
  = (str "z.lazy(() => MysterySchema).nullish()", [])
  ∧ Zod.getZodType (str "NS.Mystery") false []
    ≠ (str "z.unknown().nullish()", [str "NS.Mystery"]).
Proof. vm_compute. split; [reflexivity|discriminate]. Qed.

(** C9, amended: no resolver raises an error.  In [main.go] a reference
    that is no collection, does not start with [Edm.] and whose qualified
    name has no entry in the type name table resolves to the opaque
    [interface{}], a collection of it to [[]interface{}], and a name
    starting with [Edm.] outside the primitive table falls back to a
    string.  In the Zod generator only the empty name resolves to
    [z.unknown()], with a warning; every other name that is no primitive
    resolves to a lazy reference to the schema of that name. *)
Theorem C9_unresolvable_reference_falls_back :
  (∀ st raw h ctxNS,
     Main.reCollection raw = None →
     HasPrefix raw (str "Edm.") = false →
     Main.mapGet (Main.typeNameMap st) (qualifiedName raw ctxNS) = [] →
     Main.resolveTypeRef st raw h ctxNS = (str "interface{}", st)
     ∧ (raw ≠ [] → 10%N ∉ raw →
        Main.resolveTypeRef st (str "Collection(" ++ raw ++ str ")") h ctxNS
        = (str "[]interface{}", st)))
  ∧ (∀ st raw h ctxNS,
       Main.reCollection raw = None →
       HasPrefix raw (str "Edm.") = true →
       raw ∉ edmPrimitives →
       Main.resolveTypeRef st raw h ctxNS
       = (Main.ptrIf (Main.boolOrDefault h true) "string", st))
  ∧ (∀ edmType nullable target,
       let isColl := (EdmName.isCollection edmType).1 in
       let innerName :=
         EdmName.extractEdmTypeName (EdmName.isCollection edmType).2 in
       Zod.edmToZod !! innerName = None →
       (innerName ≠ [] →
        Zod.getZodType edmType nullable target
        = (zodWrap isColl
             (str "z.lazy(() => "
              ++ (if bool_decide (target = []) then innerName ++ str "Schema"
                  else target) ++ str ")"), []))
       ∧ (innerName = [] →
          Zod.getZodType edmType nullable target
          = (zodWrap isColl (str "z.unknown()"), [edmType]))).
Proof.
  split; [|split].
  - intros st raw h ctxNS Hc Hp Hq. split.
    + by apply main_unknown_interface.
    + intros Hne Hnl.
      rewrite (resolveTypeRef_collection st raw h ctxNS Hne Hnl).
      by rewrite (main_unknown_interface st raw None ctxNS).
  - apply main_unknown_primitive.
  - apply zod_not_primitive.
Qed.

Lemma C9_witness :
  Main.resolveTypeRef emptyState (str "NS.Mystery") None (str "NS")
  = (str "interface{}", emptyState).
Proof.
  apply (proj1 C9_unresolvable_reference_falls_back emptyState
           (str "NS.Mystery") None (str "NS")); vm_compute; reflexivity.
Defined.

End UnknownFacts.

(** ** [main.go]: namespace qualification of type names *)

Module NamingFacts.
Import Main GoStrFacts.

(** A table filled by one insertion per element of a set. *)
Lemma set_fold_insert_lookup {V} (f : gostring → V) (X : gset gostring) k :
  set_fold (λ qn (m : gmap gostring V), <[qn := f qn]> m) ∅ X !! k
  = if decide (k ∈ X) then Some (f k) else None.
Proof.
  revert k.
  refine (set_fold_ind_L
            (λ (m : gmap gostring V) (Y : gset gostring),
               ∀ k, m !! k = if decide (k ∈ Y) then Some (f k) else None)
            _ _ _ _ X).
  - intros k. rewrite lookup_empty. rewrite decide_False; [done|set_solver].
  - intros x Y m Hx IH k.
    destruct (decide (x = k)) as [->|Hne].
    + rewrite lookup_insert_eq. rewrite decide_True; [done|set_solver].
    + rewrite lookup_insert_ne by done. rewrite IH.
      destruct (decide (k ∈ Y)).
      * rewrite decide_True; [done|set_solver].
      * rewrite decide_False; [done|set_solver].
Qed.

(** A table filled by one insertion per element of a list. *)
Lemma foldl_insert_lookup {V} (f : gostring → V) (l : list gostring)
    (m0 : gmap gostring V) k :
  foldl (λ m ns, <[ns := f ns]> m) m0 l !! k
  = if decide (k ∈ l) then Some (f k) else m0 !! k.
Proof.
  revert m0. induction l as [|x l IH]; intros m0.
  - cbn [foldl]. case_decide as Hin; [by apply not_elem_of_nil in Hin|done].
  - cbn [foldl]. rewrite IH.
    destruct (decide (k ∈ l)) as [Hin|Hin].
    + case_decide as Hin'; [done|]. exfalso. apply Hin'. by right.
    + destruct (decide (x = k)) as [->|Hne].
      * rewrite lookup_insert_eq. case_decide as Hin'; [done|].
        exfalso. apply Hin'. by left.
      * rewrite lookup_insert_ne by done.
        case_decide as Hin'; [|done].
        apply elem_of_cons in Hin' as [?|?]; congruence.
Qed.

(** How many known qualified names carry a local name. *)
Definition sharedBy (known : gset gostring) (base : gostring) : nat :=
  size (filter (λ qn, baseNameFromQualified qn = base) known).

(** [conflictNames] counts exactly those. *)
Lemma countConflicts_spec (known : gset gostring) (base : gostring) :
  default 0 (countConflicts known !! base) = Z.of_nat (sharedBy known base).
Proof.
  unfold countConflicts, sharedBy. revert base.
  refine (set_fold_ind_L
            (λ (m : gmap gostring Z) (Y : gset gostring),
               ∀ b, default 0 (m !! b)
                    = Z.of_nat (size (filter (λ qn, baseNameFromQualified qn = b) Y)))
            _ _ _ _ known).
  - intros b. rewrite lookup_empty, filter_empty_L by apply _.
    by rewrite size_empty.
  - intros x X m Hx IH b. rewrite filter_union_L by apply _.
    destruct (decide (baseNameFromQualified x = b)) as [<-|Hne].
    + rewrite lookup_insert_eq. simpl. rewrite IH.
      rewrite filter_singleton_L by apply _. rewrite decide_True by done.
      rewrite size_union.
      2:{ intros y Hy [_ Hy']%elem_of_filter.
          apply elem_of_singleton in Hy as ->. done. }
      rewrite size_singleton. lia.
    + rewrite lookup_insert_ne by done. rewrite IH.
      rewrite filter_singleton_L by apply _. rewrite decide_False by done.
      by rewrite (left_id_L ∅ (∪)).
Qed.


(** The qualified names [generate] registers are those of the
    declarations of the schemas. *)
Lemma registerKnown_spec schemas qn :
  qn ∈ registerKnown schemas
  ↔ ∃ s name, s ∈ schemas
      ∧ (name ∈ dom (EntityTypes s) ∨ name ∈ dom (ComplexTypes s)
         ∨ name ∈ dom (EnumTypes s))
      ∧ qn = Namespace s ++ str "." ++ name.
Proof.
  unfold registerKnown.
  assert (∀ acc : gset gostring,
            qn ∈ foldl (λ known s, schemaQNames s ∪ known) acc schemas
            ↔ qn ∈ acc ∨ ∃ s, s ∈ schemas ∧ qn ∈ schemaQNames s) as H.
  { induction schemas as [|s l IH]; intros acc; cbn [foldl].
    - split; [by left|]. intros [?|(s & Hs & _)]; [done|].
      by apply not_elem_of_nil in Hs.
    - rewrite IH, elem_of_union. split.
      + intros [[?|?]|(s' & ? & ?)]; [right; exists s|by left|right; exists s'];
          (split; [|done]); [by left|by right].
      + intros [?|(s' & [->|?]%elem_of_cons & ?)];
          [left; by right|left; by left|right; by exists s']. }
  rewrite H. split.
  - intros [Hin|(s & Hs & Hin)]; [by apply not_elem_of_empty in Hin|].
    unfold schemaQNames in Hin.
    rewrite !elem_of_union, !elem_of_map in Hin.
    destruct Hin as [[(n & -> & ?)|(n & -> & ?)]|(n & -> & ?)];
      exists s, n; auto.
  - intros (s & name & Hs & Hd & ->). right. exists s. split; [done|].
    unfold schemaQNames. rewrite !elem_of_union, !elem_of_map.
    destruct Hd as [?|[?|?]]; [left; left|left; right|right]; by exists name.
Qed.

Lemma LastIndex_absent (s : gostring) (c : rune) :
  c ∉ s → LastIndex s [c] = -1.
Proof.
  induction s as [|x t IH]; intros Hc; [done|].
  cbn [LastIndex]. rewrite IH by (intros ?; apply Hc; by right).
  rewrite decide_False by lia.
  unfold HasPrefix. rewrite bool_decide_eq_false_2; [done|].
  cbn. intros [= ->]. apply Hc. by left.
Qed.

Lemma LastIndex_last_sep (ns name : gostring) (c : rune) :
  c ∉ name → LastIndex (ns ++ c :: name) [c] = Z.of_nat (length ns).
Proof.
  intros Hc. induction ns as [|x t IH].
  - cbn [app LastIndex]. rewrite LastIndex_absent by done.
    rewrite decide_False by lia.
    unfold HasPrefix. by rewrite bool_decide_eq_true_2.
  - cbn [app LastIndex]. rewrite IH.
    rewrite decide_True by lia. cbn [length]. lia.
Qed.

(** A qualified name built from a namespace and a local name without dot
    splits back into the two. *)
Lemma splitQualified_join (ns name : gostring) :
  46%N ∉ name → splitQualified (ns ++ str "." ++ name) = (ns, name).
Proof.
  intros Hdot. unfold splitQualified.
  change (str ".") with [46%N]. cbn [app].
  rewrite LastIndex_last_sep by done.
  destruct (decide (Z.of_nat (length ns) < 0)) as [Hneg|_]; [lia|].
  unfold upto, from. rewrite Nat2Z.id.
  replace (Z.to_nat (Z.of_nat (length ns) + 1)) with (S (length ns)) by lia.
  rewrite take_app_length. f_equal.
  rewrite drop_app_ge by lia.
  by replace (S (length ns) - length ns)%nat with 1%nat by lia.
Qed.

Section Naming.
Context (U : UnicodeTables).

(** The Go name [generate] records for a known qualified name. *)
Lemma typeNameMap_known schemas o qn :
  qn ∈ registerKnown schemas →
  typeNameMap (generateState U schemas o) !! qn
  = Some (goTypeName U (needPrefix o (distinctNamespaces schemas))
            (nsAliases (generateState U schemas o))
            (countConflicts (registerKnown schemas)) qn).
Proof.
  intros Hin. unfold generateState. cbn [typeNameMap nsAliases].
  rewrite set_fold_insert_lookup. by rewrite decide_True.
Qed.

(** Only qualified names that were registered get a Go name. *)
Lemma typeNameMap_unknown schemas o qn :
  qn ∉ registerKnown schemas →
  typeNameMap (generateState U schemas o) !! qn = None.
Proof.
  intros Hin. unfold generateState. cbn [typeNameMap].
  rewrite set_fold_insert_lookup. by rewrite decide_False.
Qed.

(** The alias table holds the alias of every namespace of the list. *)
Lemma nsAliases_listed schemas o ns :
  ns ∈ distinctNamespaces schemas →
  mapGet (nsAliases (generateState U schemas o)) ns = namespaceAlias U ns.
Proof.
  intros Hin. unfold generateState, mapGet. cbn [nsAliases].
  rewrite foldl_insert_lookup. by rewrite decide_True.
Qed.

Lemma nsAliases_unlisted schemas o ns :
  ns ∉ distinctNamespaces schemas →
  mapGet (nsAliases (generateState U schemas o)) ns = [].
Proof.
  intros Hin. unfold generateState, mapGet. cbn [nsAliases].
  rewrite foldl_insert_lookup. by rewrite decide_False.
Qed.

Lemma needPrefix_auto o nsList :
  NsPrefixMode o = str "auto" →
  needPrefix o nsList = bool_decide (1 < length nsList)%nat.
Proof. intros Hm. unfold needPrefix. rewrite Hm. reflexivity. Qed.

(** C1, amended: under mode [auto] the rendering of a declared type
    depends on the number of namespaces of the load.  With at most one
    namespace, a local name carried by a single qualified name is rendered
    unqualified.  A local name shared by two or more qualified names is
    rendered with the namespace alias in front, for every declaration that
    bears it.  With two or more namespaces, every declaration is rendered
    with the alias in front, shared or not.  The alias is that of the
    declaration's namespace whenever the namespace is listed. *)
Theorem C1_auto_qualification schemas o qn :
  NsPrefixMode o = str "auto" →
  qn ∈ registerKnown schemas →
  let st := generateState U schemas o in
  let ns := (splitQualified qn).1 in
  let base := (splitQualified qn).2 in
  let plain := goExported U base in
  let qualified := mapGet (nsAliases st) ns ++ goExported U base in
  ((length (distinctNamespaces schemas) ≤ 1)%nat →
   sharedBy (registerKnown schemas) base = 1%nat →
   typeNameMap st !! qn = Some plain)
  ∧ ((1 < sharedBy (registerKnown schemas) base)%nat →
     typeNameMap st !! qn = Some qualified)
  ∧ ((1 < length (distinctNamespaces schemas))%nat →
     typeNameMap st !! qn = Some qualified)
  ∧ (ns ∈ distinctNamespaces schemas →
     mapGet (nsAliases st) ns = namespaceAlias U ns).
Proof.
  intros Hauto Hin st ns base plain qualified.
  assert (typeNameMap st !! qn
          = Some (if bool_decide (1 < length (distinctNamespaces schemas))%nat
                     || bool_decide (1 < sharedBy (registerKnown schemas) base)%nat
                  then qualified else plain)) as Hname.
  { subst st. rewrite typeNameMap_known by done. f_equal.
    unfold goTypeName. rewrite needPrefix_auto by done.
    subst ns base plain qualified.
    destruct (splitQualified qn) as [ns base]. cbn [fst snd].
    rewrite countConflicts_spec.
    destruct (bool_decide (1 < length _)%nat); [done|]. cbn [orb].
    destruct (decide (1 < sharedBy (registerKnown schemas) base)%nat).
    - rewrite !bool_decide_eq_true_2 by lia. done.
    - rewrite !bool_decide_eq_false_2 by lia. done. }
  repeat split.
  - intros Hone Hshared. rewrite Hname, Hshared.
    rewrite !bool_decide_eq_false_2 by lia. done.
  - intros Hshared. rewrite Hname.
    rewrite (bool_decide_eq_true_2 (1 < sharedBy _ _)%nat) by done.
    by rewrite orb_true_r.
  - intros Hmany. rewrite Hname.
    by rewrite (bool_decide_eq_true_2 (1 < length _)%nat) by done.
  - intros Hns. by apply nsAliases_listed.
Qed.

End Naming.


(** The namespaces in which a local name is declared. *)
Definition declares (s : Schema) (name : gostring) : Prop :=
  name ∈ dom (EntityTypes s) ∨ name ∈ dom (ComplexTypes s)
  ∨ name ∈ dom (EnumTypes s).

#[global] Instance declares_dec s name : Decision (declares s name).
Proof. unfold declares. apply _. Defined.

Definition namespacesDeclaring (schemas : list Schema) (name : gostring)
  : gset gostring :=
  list_to_set (Namespace <$> filter (λ s, declares s name) schemas).

(** A load of two namespaces without any shared local name. *)
Definition entityNamed (ns name : gostring) : EntityType :=
  {| etNamespace := ns; etName := name; etBaseType := []; Keys := [];
     etProperties := []; NavPropsV4 := [] |}.

Definition schemaOf (ns name : gostring) : Schema :=
  {| Namespace := ns; EntityTypes := {[ name := entityNamed ns name ]};
     ComplexTypes := ∅; EnumTypes := ∅ |}.

Definition twoNamespaces : list Schema :=
  [schemaOf (str "NS1") (str "Foo"); schemaOf (str "NS2") (str "Bar")].

Definition autoOptions : Options :=
  {| PkgName := str "models"; DecimalMode := str "shopspring";
     NsPrefixMode := str "auto"; InPath := []; OutPath := [] |}.

(** The claim of C1 fails under mode [auto] when the load has two
    namespaces: [Foo] is declared in one namespace only and is carried by
    one qualified name only, yet it is rendered [NS1Foo], with the alias. *)
Lemma C1_counterexample_unique_name_qualified :
  NsPrefixMode autoOptions = str "auto"
  ∧ size (namespacesDeclaring twoNamespaces (str "Foo")) = 1%nat
  ∧ sharedBy (registerKnown twoNamespaces) (str "Foo") = 1%nat
  ∧ typeNameMap (generateState asciiTables twoNamespaces autoOptions)
      !! str "NS1.Foo" = Some (str "NS1Foo")
  ∧ goExported asciiTables (str "Foo") = str "Foo"
  ∧ typeNameMap (generateState asciiTables twoNamespaces autoOptions)
      !! str "NS1.Foo" ≠ Some (goExported asciiTables (str "Foo")).
Proof. vm_compute. repeat split; discriminate. Qed.

(** A load of one namespace: the name is rendered unqualified. *)
Lemma C1_witness :
  typeNameMap (generateState asciiTables [schemaOf (str "NS1") (str "Foo")]
                 autoOptions) !! str "NS1.Foo" = Some (str "Foo").
Proof.
  apply (proj1 (C1_auto_qualification asciiTables
                  [schemaOf (str "NS1") (str "Foo")] autoOptions
                  (str "NS1.Foo") eq_refl ltac:(by_compute)));
    vm_compute; reflexivity || lia.
Defined.

End NamingFacts.

(** ** [main.go]: option values that are not recognised *)

Module FlagsFacts.
Import Main GoStrFacts.

Definition decimalModes : list gostring := [str "shopspring"; str "string"].
Definition nsPrefixModes : list gostring :=
  [str "auto"; str "always"; str "none"].

Definition decimalWarning (v : gostring) : diagnostic :=
  {| dFormat := "warning: -decimal=%q invalid; falling back to shopspring\n";
     dArg := v |}.

Definition nsPrefixWarning (v : gostring) : diagnostic :=
  {| dFormat := "warning: -ns-prefix=%q invalid; falling back to auto\n";
     dArg := v |}.

(** The claim of C2 fails: with two unrecognised values [parseFlags]
    does not stop with a fatal error; it goes on with the defaults
    [shopspring] and [auto] and two warnings. *)
Lemma C2_counterexample_invalid_values_coerced :
  parseFlags asciiTables [] [] (str "models") (str "float") (str "sometimes")
  = (Continue {| PkgName := str "models"; DecimalMode := str "shopspring";
                 NsPrefixMode := str "auto"; InPath := []; OutPath := [] |},
     [decimalWarning (str "float"); nsPrefixWarning (str "sometimes")])
  ∧ (∀ msg ws,
       parseFlags asciiTables [] [] (str "models") (str "float")
         (str "sometimes") ≠ (Fatal msg, ws)).
Proof. split; [vm_compute; reflexivity|]. intros msg ws. vm_compute. discriminate. Qed.

(** C2, amended: [parseFlags] never ends in a fatal error.  A decimal
    mode or namespace prefix mode that, once in lower case, is not one of
    the recognised values is replaced by the default ([shopspring],
    [auto]) and reported by a warning on standard error; a recognised
    value is kept and draws no warning. *)
Theorem C2_invalid_option_falls_back_with_warning
    (U : UnicodeTables) (inPath outPath pkg decimal nsPrefix : gostring) :
  let d := strings_ToLower U decimal in
  let n := strings_ToLower U nsPrefix in
  parseFlags U inPath outPath pkg decimal nsPrefix
  = (Continue
       {| PkgName := pkg;
          DecimalMode := if bool_decide (d ∈ decimalModes) then d
                         else str "shopspring";
          NsPrefixMode := if bool_decide (n ∈ nsPrefixModes) then n
                          else str "auto";
          InPath := inPath; OutPath := outPath |},
     (if bool_decide (d ∈ decimalModes) then [] else [decimalWarning d])
     ++ (if bool_decide (n ∈ nsPrefixModes) then [] else [nsPrefixWarning n])).
Proof.
  intros d n. unfold parseFlags. fold d n.
  assert (isLit d "shopspring" || isLit d "string"
          = bool_decide (d ∈ decimalModes)) as ->.
  { unfold isLit, decimalModes.
    repeat case_bool_decide; simpl; try done; set_solver. }
  assert (isLit n "auto" || isLit n "always" || isLit n "none"
          = bool_decide (n ∈ nsPrefixModes)) as ->.
  { unfold isLit, nsPrefixModes.
    repeat case_bool_decide; simpl; try done; set_solver. }
  by do 2 case_bool_decide.
Qed.

End FlagsFacts.

(** ** Enum member values *)

Module EnumFacts.
Import EdmName GoStrFacts.

(** The running counter [currentValue] after a run of members. *)
Fixpoint counterAfter (currentValue : Z) (members : list EnumMember) : Z :=
  match members with
  | [] => currentValue
  | m :: rest =>
      if bool_decide (mValue m ≠ []) then
        match Atoi (mValue m) with
        | None => counterAfter currentValue rest
        | Some val => counterAfter (wrapInt (val + 1)) rest
        end
      else counterAfter (wrapInt (currentValue + 1)) rest
  end.

Lemma counterAfter_app cur pre post :
  counterAfter cur (pre ++ post) = counterAfter (counterAfter cur pre) post.
Proof.
  revert cur. induction pre as [|m pre IH]; intros cur; [done|].
  cbn [app counterAfter]. by repeat case_match.
Qed.

Lemma wrapInt_in_range z : minInt ≤ z ≤ maxInt → wrapInt z = z.
Proof.
  unfold minInt, maxInt, wrapInt. intros H.
  rewrite Z.mod_small by lia. lia.
Qed.

(** The loop of [generateEnum] on a list cut in two: the second part runs
    from the counter the first part leaves. *)
Lemma enumLoop_app eName cur pre post :
  Grok.enumLoop eName cur (pre ++ post)
  = ((Grok.enumLoop eName cur pre).1
       ++ (Grok.enumLoop eName (counterAfter cur pre) post).1,
     (Grok.enumLoop eName cur pre).2
       ++ (Grok.enumLoop eName (counterAfter cur pre) post).2).
Proof.
  revert cur. induction pre as [|m pre IH]; intros cur.
  - cbn. by destruct (Grok.enumLoop eName cur post).
  - cbn [app Grok.enumLoop counterAfter].
    case_bool_decide; [destruct (Atoi (mValue m))|]; rewrite IH;
      repeat match goal with
             | |- context [Grok.enumLoop ?e ?c ?l] =>
                 destruct (Grok.enumLoop e c l)
             end; done.
Qed.

Lemma enumLoop_length eName cur members :
  length (Grok.enumLoop eName cur members).1 = length members.
Proof.
  revert cur. induction members as [|m ms IH]; intros cur; [done|].
  cbn [Grok.enumLoop].
  case_bool_decide; [destruct (Atoi (mValue m))|];
    match goal with
    | |- context [Grok.enumLoop ?e ?c ?l] =>
        specialize (IH c); destruct (Grok.enumLoop e c l)
    end; cbn in *; by rewrite IH.
Qed.

Lemma zodEnumLoop_app cur pre post :
  Zod.zodEnumLoop cur (pre ++ post)
  = Zod.zodEnumLoop cur pre ++ Zod.zodEnumLoop (counterAfter cur pre) post.
Proof.
  revert cur. induction pre as [|m pre IH]; intros cur; [done|].
  cbn [app Zod.zodEnumLoop counterAfter].
  case_bool_decide; [destruct (Atoi (mValue m))|]; by rewrite IH.
Qed.

Lemma zodEnumLoop_length cur members :
  length (Zod.zodEnumLoop cur members) = length members.
Proof.
  revert cur. induction members as [|m ms IH]; intros cur; [done|].
  cbn [Zod.zodEnumLoop].
  case_bool_decide; [destruct (Atoi (mValue m))|]; cbn; by rewrite IH.
Qed.

(** The line and the counter [generateEnum] gives a member, after the
    members [pre] before it. *)
Lemma generateEnum_running_counter eName pre m post :
  let c := counterAfter 0 pre in
  let line v := {| Grok.lEnum := eName; Grok.lMember := mName m;
                   Grok.lVal := itoa v |} in
  (mValue m = [] →
   (Grok.enumLoop eName 0 (pre ++ m :: post)).1 !! length pre = Some (line c)
   ∧ counterAfter 0 (pre ++ [m]) = wrapInt (c + 1))
  ∧ (∀ val, Atoi (mValue m) = Some val →
     (Grok.enumLoop eName 0 (pre ++ m :: post)).1 !! length pre
     = Some (line val)
     ∧ counterAfter 0 (pre ++ [m]) = wrapInt (val + 1)).
Proof.
  intros c line. split.
  - intros Hv. rewrite enumLoop_app, counterAfter_app. cbn [fst].
    rewrite lookup_app_r by (by rewrite enumLoop_length).
    rewrite enumLoop_length, Nat.sub_diag.
    cbn [Grok.enumLoop counterAfter]. rewrite Hv.
    rewrite bool_decide_eq_false_2 by (by intros ?).
    by destruct (Grok.enumLoop _ _ post).
  - intros val Hv. rewrite enumLoop_app, counterAfter_app. cbn [fst].
    rewrite lookup_app_r by (by rewrite enumLoop_length).
    rewrite enumLoop_length, Nat.sub_diag.
    cbn [Grok.enumLoop counterAfter]. rewrite Hv.
    rewrite bool_decide_eq_true_2 by (by intros E; rewrite E in Hv).
    by destruct (Grok.enumLoop _ _ post).
Qed.


(** C5, amended: a member whose explicit value does not parse as an
    integer gets the current value of the running counter, in
    [generateEnum] and in [generateZodEnum].  Both go on with the
    remaining members, from the same counter, and produce one entry for
    every member.  [generateEnum] logs a warning that names the value, the
    enum, the member and the substitute.  [generateZodEnum] logs nothing:
    it writes the value in a [parsed error] comment after the substitute
    in the text it emits. *)
Theorem C5_malformed_enum_value_recovered
    (eName : gostring) (pre : list EnumMember) (m : EnumMember)
    (post : list EnumMember) :
  mValue m ≠ [] → Atoi (mValue m) = None →
  let members := pre ++ m :: post in
  let c := counterAfter 0 pre in
  let line := {| Grok.lEnum := eName; Grok.lMember := mName m;
                 Grok.lVal := itoa c |} in
  let entry := (mName m,
                itoa c ++ str " /* parsed error: " ++ mValue m ++ str " */") in
  (Grok.enumLoop eName 0 members).1
  = (Grok.enumLoop eName 0 pre).1 ++ line :: (Grok.enumLoop eName c post).1
  ∧ (Grok.enumLoop eName 0 members).1 !! length pre = Some line
  ∧ {| wValue := mValue m; wEnum := eName; wMember := mName m; wUsing := c |}
    ∈ (Grok.enumLoop eName 0 members).2
  ∧ length (Grok.enumLoop eName 0 members).1 = length members
  ∧ Zod.zodEnumLoop 0 members
    = Zod.zodEnumLoop 0 pre ++ entry :: Zod.zodEnumLoop c post
  ∧ Zod.zodEnumLoop 0 members !! length pre = Some entry
  ∧ length (Zod.zodEnumLoop 0 members) = length members.
Proof.
  intros Hv Hp members c line entry.
  assert (Grok.enumLoop eName c (m :: post)
          = (line :: (Grok.enumLoop eName c post).1,
             {| wValue := mValue m; wEnum := eName; wMember := mName m;
                wUsing := c |} :: (Grok.enumLoop eName c post).2)) as Hm.
  { cbn [Grok.enumLoop]. rewrite bool_decide_eq_true_2 by done. rewrite Hp.
    by destruct (Grok.enumLoop eName c post). }
  assert (Zod.zodEnumLoop c (m :: post) = entry :: Zod.zodEnumLoop c post)
    as Hz.
  { cbn [Zod.zodEnumLoop]. rewrite bool_decide_eq_true_2 by done.
    by rewrite Hp. }
  subst members. rewrite enumLoop_app, zodEnumLoop_app. fold c.
  rewrite Hm, Hz. cbn [fst snd].
  repeat split.
  - rewrite lookup_app_r by (by rewrite enumLoop_length).
    by rewrite enumLoop_length, Nat.sub_diag.
  - apply elem_of_app. right. by left.
  - rewrite length_app. cbn [length].
    rewrite !enumLoop_length, length_app. done.
  - rewrite lookup_app_r by (by rewrite zodEnumLoop_length).
    by rewrite zodEnumLoop_length, Nat.sub_diag.
  - rewrite length_app. cbn [length].
    rewrite !zodEnumLoop_length, length_app. done.
Qed.

Definition member (name value : string) : EnumMember :=
  {| mName := str name; mValue := str value |}.
Arguments member name%_string value%_string.

Lemma C5_witness :
  (Grok.enumLoop (str "Status") 0
     [member "Open" ""; member "Odd" "five"; member "Last" ""]).1
  = [{| Grok.lEnum := str "Status"; Grok.lMember := str "Open";
        Grok.lVal := str "0" |};
     {| Grok.lEnum := str "Status"; Grok.lMember := str "Odd";
        Grok.lVal := str "1" |};
     {| Grok.lEnum := str "Status"; Grok.lMember := str "Last";
        Grok.lVal := str "1" |}].
Proof.
  apply (proj1 (C5_malformed_enum_value_recovered (str "Status")
                  [member "Open" ""] (member "Odd" "five")
                  [member "Last" ""]
                  ltac:(by_compute) eq_refl)).
Defined.

(** The claim of C5 fails on [generateZodEnum]: a value that does not
    parse draws no warning there.  The generator has no call of the log;
    all that is left of the value is a comment in the emitted text.
    [generateEnum], on the same members, logs its warning. *)
Lemma C5_counterexample_zod_logs_no_warning :
  Zod.zodEnumLoop 0 [member "Odd" "five"; member "Last" ""]
  = [(str "Odd", str "0 /* parsed error: five */"); (str "Last", str "0")]
  ∧ (Grok.enumLoop (str "Status") 0 [member "Odd" "five"; member "Last" ""]).2
    = [{| wValue := str "five"; wEnum := str "Status"; wMember := str "Odd";
          wUsing := 0 |}].
Proof. vm_compute. done. Qed.

(** The scenario of the specification on [generateEnum] and on
    [generateZodEnum]: Open=0, Closed=5, Cancelled=6. *)
Lemma generateEnum_status_scenario :
  Grok.lVal <$> (Grok.enumLoop (str "Status") 0
                   [member "Open" ""; member "Closed" "5";
                    member "Cancelled" ""]).1
  = [str "0"; str "5"; str "6"]
  ∧ Zod.zodEnumLoop 0 [member "Open" ""; member "Closed" "5";
                       member "Cancelled" ""]
    = [(str "Open", str "0"); (str "Closed", str "5");
       (str "Cancelled", str "6")].
Proof. vm_compute. done. Qed.

(** The same enum through [emitEnum] of [main.go]. *)
Definition statusMembers : list Main.EnumMember :=
  [{| Main.mName := str "Open"; Main.mValue := [] |};
   {| Main.mName := str "Closed"; Main.mValue := str "5" |};
   {| Main.mName := str "Cancelled"; Main.mValue := [] |}].

(** C4 on [main.go]: [emitEnum] keeps no counter.  It writes [iota] for a
    first member without value and nothing for a later one, so that the
    constant repeats the expression above it: Cancelled, after Closed = 5,
    is 5 and not 6. *)
Theorem C4_emitEnum_repeats_the_explicit_value :
  Main.renderConstSpec
    <$> Main.emitEnumConsts Main.asciiTables (str "Status") (str "int32")
          statusMembers
  = [str "  StatusOpen Status = iota" ++ nl;
     str "  StatusClosed Status = 5" ++ nl;
     str "  StatusCancelled" ++ nl]
  ∧ Main.constValues
      (Main.emitEnumConsts Main.asciiTables (str "Status") (str "int32")
         statusMembers)
    = [(str "StatusOpen", Some 0); (str "StatusClosed", Some 5);
       (str "StatusCancelled", Some 5)].
Proof. vm_compute. done. Qed.

End EnumFacts.

(** ** [main.go]: the decoder emitted for a flags enum *)

Module FlagsEnumFacts.
Import Main GoStrFacts.

Abbreviation comma := 44%N.

(** The names a wire value lists: the parts between commas, without the
    white space around them, empty parts left out. *)
Definition listedNames (s : gostring) : list gostring :=
  filter (λ p, p ≠ []) (TrimSpace <$> Split s comma).

(** A member name that can stand in such a list as it is. *)
Definition plainName (n : gostring) : Prop :=
  n ≠ [] ∧ (comma ∉ n) ∧ (TrimSpace n = n).

Definition valueOf (nameToValue : gmap gostring Z) (n : gostring) : Z :=
  default 0 (nameToValue !! n).

Lemma Split_nonempty s sep : Split s sep ≠ [].
Proof. destruct s as [|c t]; cbn; [done|]. by repeat case_match. Qed.

Lemma Split_no_sep n sep : sep ∉ n → Split n sep = [n].
Proof.
  induction n as [|c t IH]; intros Hn; [done|].
  cbn. rewrite decide_False by (intros ->; apply Hn; by left).
  rewrite IH; [done|]. intros ?. apply Hn. by right.
Qed.

Lemma Split_app_sep n rest sep :
  sep ∉ n → Split (n ++ sep :: rest) sep = n :: Split rest sep.
Proof.
  induction n as [|c t IH]; intros Hn.
  - cbn. by rewrite decide_True.
  - cbn. rewrite decide_False by (intros ->; apply Hn; by left).
    rewrite IH; [done|]. intros ?. apply Hn. by right.
Qed.

(** Splitting what [Join] glued gives the parts back. *)
Lemma Split_Join names :
  names ≠ [] → Forall (λ n, comma ∉ n) names →
  Split (Join names [comma]) comma = names.
Proof.
  intros Hne Hall. induction Hall as [|n ns Hn Hns IH]; [done|].
  destruct ns as [|n' ns'].
  - cbn. by apply Split_no_sep.
  - change (Join (n :: n' :: ns') [comma])
      with (n ++ comma :: Join (n' :: ns') [comma]).
    rewrite Split_app_sep by done. by rewrite IH.
Qed.

(** The loop succeeds on recognised names, with the OR of their values. *)
Lemma decodeFlagParts_ok nameToValue v parts :
  Forall (λ p, is_Some (nameToValue !! p))
         (filter (λ p, p ≠ []) (TrimSpace <$> parts)) →
  decodeFlagParts nameToValue v parts
  = DecodedOk (foldl Z.lor v
                 (valueOf nameToValue
                    <$> filter (λ p, p ≠ []) (TrimSpace <$> parts))).
Proof.
  revert v. induction parts as [|p rest IH]; intros v Hall; [done|].
  cbn [decodeFlagParts fmap list_fmap] in *.
  rewrite filter_cons in Hall |- *.
  case_bool_decide as Hp.
  - rewrite decide_False in Hall |- * by (by intros ?). by apply IH.
  - rewrite decide_True in Hall |- * by done.
    apply Forall_cons in Hall as [[mv Hmv] Hall].
    rewrite Hmv, fmap_cons. cbn [foldl]. unfold valueOf at 1.
    rewrite Hmv. cbn [default]. by apply IH.
Qed.

(** The loop fails exactly on a listed name that is not recognised. *)
Lemma decodeFlagParts_invalid nameToValue v parts :
  (∃ p, decodeFlagParts nameToValue v parts = InvalidValue p)
  ↔ Exists (λ p, nameToValue !! p = None)
           (filter (λ p, p ≠ []) (TrimSpace <$> parts)).
Proof.
  revert v. induction parts as [|p rest IH]; intros v.
  - cbn. split; [by intros [? ?]|by intros ?%Exists_nil].
  - cbn [decodeFlagParts fmap list_fmap]. rewrite filter_cons.
    case_bool_decide as Hp.
    + rewrite decide_False by (by intros ?). apply IH.
    + rewrite decide_True by done. rewrite Exists_cons.
      destruct (nameToValue !! TrimSpace p) as [mv|] eqn:Hmv.
      * rewrite IH. split; [by right|]. by intros [?|?].
      * split; [by left|]. intros _. by eexists.
Qed.


Lemma listedNames_Join names :
  Forall plainName names → listedNames (Join names [comma]) = names.
Proof.
  intros Hall. unfold listedNames.
  destruct names as [|n ns]; [done|].
  rewrite Split_Join; [|done|].
  2:{ eapply Forall_impl; [exact Hall|]. by intros ? (_ & ? & _). }
  induction Hall as [|x xs (Hx & _ & Ht) _ IH]; [done|].
  rewrite fmap_cons, filter_cons, Ht. rewrite decide_True by done.
  by rewrite IH.
Qed.

(** C7, amended: the decoder [emitEnum] writes for a flags enum takes
    the empty string to the zero value.  It splits the text at commas,
    trims the white space around every item and skips the empty items.
    A comma-separated list of recognised member names that are not empty,
    hold no comma and have no white space around them decodes to the
    bitwise OR of their values.  Decoding fails, with the error that names
    the invalid value, exactly when one of the items that remain is not a
    recognised member. *)
Theorem C7_flags_decoding (nameToValue : gmap gostring Z) :
  unmarshalFlags nameToValue [] = DecodedOk 0
  ∧ (∀ names,
       Forall plainName names →
       Forall (λ n, is_Some (nameToValue !! n)) names →
       unmarshalFlags nameToValue (Join names [comma])
       = DecodedOk (foldl Z.lor 0 (valueOf nameToValue <$> names)))
  ∧ (∀ s,
       (∃ p, unmarshalFlags nameToValue s = InvalidValue p)
       ↔ Exists (λ p, nameToValue !! p = None) (listedNames s))
  ∧ (∀ s p,
       unmarshalFlags nameToValue s = InvalidValue p →
       p ∈ listedNames s ∧ nameToValue !! p = None).
Proof.
  split; [done|]. split; [|split].
  - intros names Hplain Hknown. unfold unmarshalFlags.
    pose proof (listedNames_Join names Hplain) as Hl. unfold listedNames in Hl.
    case_bool_decide as Hs.
    + destruct names as [|n ns]; [done|]. exfalso.
      apply Forall_cons in Hplain as [(Hn & _) _].
      destruct ns; cbn in Hs; [done|]. by destruct n.
    + rewrite decodeFlagParts_ok; rewrite Hl; done.
  - intros s. unfold unmarshalFlags, listedNames. case_bool_decide as Hs.
    + subst s. split; [by intros [? ?]|].
      change (filter (λ p : gostring, p ≠ []) (TrimSpace <$> Split [] comma))
        with (@nil gostring).
      by intros ?%Exists_nil.
    + apply decodeFlagParts_invalid.
  - intros s p. unfold unmarshalFlags, listedNames. case_bool_decide as Hs;
      [done|].
    generalize (Split s comma) 0. intros parts.
    induction parts as [|q rest IH]; intros v; [done|].
    cbn [decodeFlagParts fmap list_fmap]. rewrite filter_cons.
    case_bool_decide as Hq.
    + rewrite decide_False by (by intros ?). apply IH.
    + rewrite decide_True by done.
      destruct (nameToValue !! TrimSpace q) as [mv|] eqn:Hmv.
      * intros H. destruct (IH _ H). split; [by right|done].
      * intros [= <-]. split; [by left|done].
Qed.

(** The claim of C7 fails in two places.  The text [A,,B] lists an empty
    name, which is no member, and yet decodes: empty items are skipped.
    And a member with the empty name, alone in the list, decodes to zero
    and not to its value. *)
Lemma C7_counterexample_empty_items :
  [] ∈ Split (str "A,,B") comma
  ∧ ({[ str "A" := 1; str "B" := 2 ]} : gmap gostring Z) !! [] = None
  ∧ unmarshalFlags {[ str "A" := 1; str "B" := 2 ]} (str "A,,B") = DecodedOk 3
  ∧ ({[ [] := 1; str "A" := 2 ]} : gmap gostring Z) !! [] = Some 1
  ∧ unmarshalFlags {[ [] := 1; str "A" := 2 ]} (Join [[]] [comma])
    = DecodedOk 0.
Proof.
  split; [by_compute|]. vm_compute. done.
Qed.

(** The scenario of the specification: A=1 and B=2, and the text [A,B]. *)
Lemma C7_witness :
  unmarshalFlags {[ str "A" := 1; str "B" := 2 ]} (str "A,B") = DecodedOk 3.
Proof.
  change (str "A,B") with (Join [str "A"; str "B"] [comma]).
  rewrite (proj1 (proj2 (C7_flags_decoding {[ str "A" := 1; str "B" := 2 ]}))
             [str "A"; str "B"]).
  - vm_compute. reflexivity.
  - repeat constructor; by_compute.
  - repeat constructor; by_compute.
Defined.

End FlagsEnumFacts.

(** ** The Zod generator: dependency sets *)

Module DepsFacts.
Import EdmName GoStrFacts.

(** [addType] never adds the name of the declaration itself. *)
Lemma addType_keeps_self_out selfName entitySet complexSet enumSet deps name :
  selfName ∉ deps.1 → selfName ∉ deps.2 →
  selfName ∉ (Zod.addType selfName entitySet complexSet enumSet deps name).1
  ∧ selfName ∉ (Zod.addType selfName entitySet complexSet enumSet deps name).2.
Proof.
  destruct deps as [typeDeps enumDeps]. cbn [fst snd]. intros Ht He.
  unfold Zod.addType.
  destruct (bool_decide (name = [])) eqn:E0; [done|].
  case_bool_decide as Hself; [done|]. cbn [orb].
  repeat (case_bool_decide; [cbn [fst snd]; set_solver|]).
  cbn [fst snd]. set_solver.
Qed.

Lemma foldl_addType_keeps_self_out {A} (g : A → gostring) selfName
    entitySet complexSet enumSet (l : list A) deps :
  selfName ∉ deps.1 → selfName ∉ deps.2 →
  let deps' :=
    foldl (λ deps x, Zod.addType selfName entitySet complexSet enumSet deps (g x))
          deps l in
  selfName ∉ deps'.1 ∧ selfName ∉ deps'.2.
Proof.
  revert deps. induction l as [|x l IH]; intros deps Ht He; [done|].
  cbn [foldl].
  destruct (addType_keeps_self_out selfName entitySet complexSet enumSet
              deps (g x) Ht He) as [Ht' He'].
  by apply IH.
Qed.

(** C8: the dependency sets of a declaration never hold the
    declaration's own name, whatever its properties and navigation
    properties refer to. *)
Theorem C8_dependency_sets_exclude_self
    (typ : anyType) (entitySet complexSet enumSet : gset gostring) :
  typName typ ∉ (Zod.collectTypeAndEnumDeps typ entitySet complexSet enumSet).1
  ∧ typName typ
    ∉ (Zod.collectTypeAndEnumDeps typ entitySet complexSet enumSet).2.
Proof.
  unfold Zod.collectTypeAndEnumDeps.
  pose proof (foldl_addType_keeps_self_out
                (λ p, extractEdmTypeName (isCollection (pType p)).2)
                (typName typ) entitySet complexSet enumSet (typProps typ)
                (∅, ∅)) as Hprops.
  cbn zeta in Hprops.
  destruct Hprops as [Ht He]; [set_solver..|].
  pose proof (foldl_addType_keeps_self_out
                (λ n, extractEdmTypeName (isCollection (nType n)).2)
                (typName typ) entitySet complexSet enumSet (typNavs typ)
                _ Ht He) as Hnavs.
  cbn zeta in Hnavs.
  assert (∀ (A : Type) (f : A → gostring) (deps : gset gostring * gset gostring)
            (l : list A),
            foldl (λ deps x, let '(_, inner) := isCollection (f x) in
                             Zod.addType (typName typ) entitySet complexSet
                               enumSet deps (extractEdmTypeName inner)) deps l
            = foldl (λ deps x,
                       Zod.addType (typName typ) entitySet complexSet enumSet
                         deps (extractEdmTypeName (isCollection (f x)).2))
                    deps l) as Hfold.
  { intros A f deps l. revert deps.
    induction l as [|x l IH]; intros deps; [done|].
    cbn [foldl]. rewrite IH. by destruct (isCollection (f x)). }
  rewrite !(Hfold _ pType), !(Hfold _ nType) in *. exact Hnavs.
Qed.

(** An entity that refers to itself, to another entity and to a
    primitive depends on the other entity only. *)
Lemma self_reference_scenario :
  Zod.collectTypeAndEnumDeps
    (IsEntity {| etName := str "Order";
                 etProperties := [{| pName := str "Id"; pType := str "Edm.Int32";
                                     pNullable := false |};
                                  {| pName := str "Parent";
                                     pType := str "NS.Order";
                                     pNullable := true |}];
                 etNavigationProperties :=
                   [{| nName := str "Children";
                       nType := str "Collection(NS.Order)" |};
                    {| nName := str "Customer"; nType := str "NS.Customer" |}] |})
    {[ str "Order"; str "Customer" ]} ∅ ∅
  = ({[ str "Customer" ]}, ∅).
Proof. vm_compute. reflexivity. Qed.

End DepsFacts.

(** ** The ArkType generator: keys of the emitted object *)

Module ArkFacts.
Import EdmName GoStrFacts.











End ArkFacts.

(** * Further properties of the generators *)

(** ** [main.go]: qualified names *)

Module QualifiedExtra.
Import Main GoStrFacts NamingFacts.

(** Splitting a qualified name loses nothing: the local name holds no
    dot, a name with a dot is its namespace, a dot and its local name, and
    a name without dot is a local name in the empty namespace. *)
Theorem splitQualified_rejoin (qn : gostring) :
  46%N ∉ (splitQualified qn).2
  ∧ (46%N ∈ qn → qn = (splitQualified qn).1 ++ str "." ++ (splitQualified qn).2)
  ∧ (46%N ∉ qn → splitQualified qn = ([], qn)).
Proof.
  destruct (decide (46%N ∈ qn)) as [Hin|Hout].
  - apply list_elem_of_split_r in Hin as (ns & name & -> & Hname).
    change (ns ++ 46%N :: name) with (ns ++ str "." ++ name).
    rewrite splitQualified_join by done. cbn [fst snd].
    split; [done|]. split; [done|].
    intros Hno. exfalso. apply Hno. apply elem_of_app. right. by left.
  - assert (splitQualified qn = ([], qn)) as Hs.
    { unfold splitQualified. change (str ".") with [46%N].
      rewrite LastIndex_absent by done. by rewrite decide_True by lia. }
    rewrite Hs. cbn [fst snd]. done.
Qed.

(** The qualified name of a declaration splits back into the namespace
    and the name, provided the name holds no dot; the namespace may hold
    dots. *)
Theorem splitQualified_of_declaration (ns name : gostring) :
  46%N ∉ name →
  splitQualified (ns ++ str "." ++ name) = (ns, name)
  ∧ baseNameFromQualified (ns ++ str "." ++ name) = name.
Proof.
  intros Hdot. unfold baseNameFromQualified.
  by rewrite splitQualified_join.
Qed.

Lemma splitQualified_of_declaration_witness :
  splitQualified (str "SAP.B1" ++ str "." ++ str "Order")
  = (str "SAP.B1", str "Order")
  ∧ baseNameFromQualified (str "SAP.B1" ++ str "." ++ str "Order")
    = str "Order".
Proof.
  apply (splitQualified_of_declaration (str "SAP.B1") (str "Order")).
  by_compute.
Defined.

(** With a dot in the name of a declaration the split goes wrong: the
    dot of the name is taken for the end of the namespace. *)
Lemma splitQualified_dotted_name :
  splitQualified (str "NS" ++ str "." ++ str "a.b") = (str "NS.a", str "b").
Proof. vm_compute. reflexivity. Qed.

End QualifiedExtra.

(** ** [main.go]: the list of namespaces *)

Module NamespacesExtra.
Import Main GoStrFacts NamingFacts.

Lemma strLeb_cons x a y b :
  strLeb (x :: a) (y :: b) = true ↔ (x < y)%N ∨ (x = y ∧ strLeb a b = true).
Proof.
  cbn [strLeb]. rewrite orb_true_iff, andb_true_iff, N.ltb_lt, N.eqb_eq. done.
Qed.

#[global] Instance strLe_total : Total strLe.
Proof.
  intros a. unfold strLe. induction a as [|x a IH]; intros b.
  - by left.
  - destruct b as [|y b]; [by right|].
    rewrite !strLeb_cons.
    destruct (N.lt_trichotomy x y) as [?|[->|?]]; [by left; left| |by right; left].
    destruct (IH b); [left|right]; by right.
Qed.

#[global] Instance strLe_trans : Transitive strLe.
Proof.
  intros a. unfold strLe. induction a as [|x a IH]; intros b c Hab Hbc.
  - done.
  - destruct b as [|y b]; [done|]. destruct c as [|z c]; [done|].
    apply strLeb_cons in Hab, Hbc. apply strLeb_cons.
    destruct Hab as [?|[-> ?]], Hbc as [?|[-> ?]];
      [left; lia|by left|by left|right].
    split; [done|]. by apply (IH b).
Qed.

(** [sortStrings] puts a list in ascending order and keeps its elements. *)
Lemma sortStrings_sorted l : StronglySorted strLe (sortStrings l).
Proof. apply StronglySorted_merge_sort; apply _. Qed.

Lemma sortStrings_perm l : sortStrings l ≡ₚ l.
Proof. apply merge_sort_Permutation. Qed.

Lemma namespaceSet_spec (schemas : list Schema) (acc : gset gostring) ns :
  ns ∈ foldl (λ set s, if bool_decide (Namespace s ≠ [])
                       then {[Namespace s]} ∪ set else set) acc schemas
  ↔ ns ∈ acc ∨ (ns ≠ [] ∧ ∃ s, s ∈ schemas ∧ Namespace s = ns).
Proof.
  revert acc. induction schemas as [|s l IH]; intros acc; cbn [foldl].
  - split; [by left|]. intros [?|(_ & s & Hs & _)]; [done|].
    by apply not_elem_of_nil in Hs.
  - rewrite IH. case_bool_decide as Hne.
    + rewrite elem_of_union, elem_of_singleton. split.
      * intros [[->|?]|(? & s' & ? & ?)].
        -- right. split; [done|]. exists s. split; [by left|done].
        -- by left.
        -- right. split; [done|]. exists s'. split; [by right|done].
      * intros [?|(? & s' & [->|?]%elem_of_cons & <-)].
        -- left. by right.
        -- left. by left.
        -- right. split; [done|]. by exists s'.
    + split.
      * intros [?|(? & s' & ? & ?)]; [by left|].
        right. split; [done|]. exists s'. split; [by right|done].
      * intros [?|(Hns & s' & [->|?]%elem_of_cons & <-)]; [by left| |].
        -- by destruct Hns.
        -- right. split; [done|]. by exists s'.
Qed.

Lemma distinctNamespaces_elem (schemas : list Schema) ns :
  ns ∈ distinctNamespaces schemas
  ↔ ns ≠ [] ∧ ∃ s, s ∈ schemas ∧ Namespace s = ns.
Proof.
  unfold distinctNamespaces.
  rewrite sortStrings_perm, elem_of_elements, namespaceSet_spec.
  split; [|by right]. intros [Hin|?]; [|done].
  by apply not_elem_of_empty in Hin.
Qed.

(** [distinctNamespaces] lists the namespaces of the schemas, the empty
    one left out, each once and in ascending order. *)
Theorem distinctNamespaces_spec (schemas : list Schema) :
  StronglySorted strLe (distinctNamespaces schemas)
  ∧ NoDup (distinctNamespaces schemas)
  ∧ ∀ ns, ns ∈ distinctNamespaces schemas
          ↔ ns ≠ [] ∧ ∃ s, s ∈ schemas ∧ Namespace s = ns.
Proof.
  unfold distinctNamespaces. split; [apply sortStrings_sorted|]. split.
  - rewrite sortStrings_perm. apply NoDup_elements.
  - fold (distinctNamespaces schemas). apply distinctNamespaces_elem.
Qed.

(** The alias table has an alias for exactly these namespaces. *)
Theorem nsAliases_domain (U : UnicodeTables) schemas o ns :
  nsAliases (generateState U schemas o) !! ns
  = if decide (ns ∈ distinctNamespaces schemas)
    then Some (namespaceAlias U ns) else None.
Proof.
  unfold generateState. cbn [nsAliases].
  rewrite foldl_insert_lookup. by rewrite lookup_empty.
Qed.

End NamespacesExtra.

(** ** [main.go]: type names under the other prefix modes *)

Module NamingModesExtra.
Import Main GoStrFacts NamingFacts NamespacesExtra.

Definition optionsWithMode (mode : string) : Options :=
  {| PkgName := str "models"; DecimalMode := str "shopspring";
     NsPrefixMode := str mode; InPath := []; OutPath := [] |}.
Arguments optionsWithMode mode%_string.

(** Two namespaces that both declare [Item]. *)
Definition collidingNamespaces : list Schema :=
  [schemaOf (str "NS1") (str "Item"); schemaOf (str "NS2") (str "Item")].

Section Modes.
Context (U : UnicodeTables).

(** The type name table has an entry for exactly the qualified names
    [Namespace.Name] of the entity types, complex types and enums of the
    schemas. *)
Theorem typeNameMap_domain schemas o qn :
  is_Some (typeNameMap (generateState U schemas o) !! qn)
  ↔ ∃ s name, s ∈ schemas
      ∧ (name ∈ dom (EntityTypes s) ∨ name ∈ dom (ComplexTypes s)
         ∨ name ∈ dom (EnumTypes s))
      ∧ qn = Namespace s ++ str "." ++ name.
Proof.
  rewrite <- registerKnown_spec.
  destruct (decide (qn ∈ registerKnown schemas)) as [Hin|Hout].
  - rewrite typeNameMap_known by done. split; [done|]. by eexists.
  - rewrite typeNameMap_unknown by done. split; [by intros [? ?]|done].
Qed.

(** Under mode [always] every declaration is rendered with the alias of
    its namespace in front. *)
Theorem always_mode_qualifies_all schemas o qn :
  NsPrefixMode o = str "always" →
  qn ∈ registerKnown schemas →
  typeNameMap (generateState U schemas o) !! qn
  = Some (mapGet (nsAliases (generateState U schemas o)) (splitQualified qn).1
          ++ goExported U (splitQualified qn).2).
Proof.
  intros Hmode Hin. rewrite typeNameMap_known by done. f_equal.
  unfold goTypeName, needPrefix. rewrite Hmode.
  by destruct (splitQualified qn).
Qed.

(** Under mode [none] a local name carried by one qualified name only is
    rendered unqualified, but a local name shared by two or more qualified
    names still gets the alias in front: the mode does not switch the
    collision rule off. *)
Theorem none_mode_still_qualifies_collisions schemas o qn :
  NsPrefixMode o = str "none" →
  qn ∈ registerKnown schemas →
  typeNameMap (generateState U schemas o) !! qn
  = Some (if bool_decide (1 < sharedBy (registerKnown schemas)
                                 (splitQualified qn).2)%nat
          then mapGet (nsAliases (generateState U schemas o))
                 (splitQualified qn).1
               ++ goExported U (splitQualified qn).2
          else goExported U (splitQualified qn).2).
Proof.
  intros Hmode Hin. rewrite typeNameMap_known by done. f_equal.
  unfold goTypeName, needPrefix. rewrite Hmode.
  destruct (splitQualified qn) as [ns base]. cbn [fst snd].
  change (isLit (str "none") "always"
          || isLit (str "none") "auto"
             && bool_decide (1 < length (distinctNamespaces schemas))%nat)
    with false.
  cbn [orb]. rewrite countConflicts_spec.
  destruct (decide (1 < sharedBy (registerKnown schemas) base)%nat).
  - by rewrite !bool_decide_eq_true_2 by lia.
  - by rewrite !bool_decide_eq_false_2 by lia.
Qed.

(** The empty namespace has no alias: a declaration of a schema without
    namespace is never given a prefix, whatever the mode decides. *)
Theorem empty_namespace_has_no_alias schemas o :
  mapGet (nsAliases (generateState U schemas o)) [] = [].
Proof.
  apply nsAliases_unlisted. intros Hin.
  apply distinctNamespaces_elem in Hin as [Hne _]. done.
Qed.

End Modes.

Lemma always_mode_witness :
  typeNameMap (generateState asciiTables twoNamespaces
                 (optionsWithMode "always")) !! str "NS2.Bar"
  = Some (str "NS2Bar").
Proof.
  apply (always_mode_qualifies_all asciiTables twoNamespaces
           (optionsWithMode "always") (str "NS2.Bar") eq_refl).
  by_compute.
Defined.

Lemma none_mode_witness :
  typeNameMap (generateState asciiTables collidingNamespaces
                 (optionsWithMode "none")) !! str "NS1.Item"
  = Some (str "NS1Item").
Proof.
  apply (none_mode_still_qualifies_collisions asciiTables collidingNamespaces
           (optionsWithMode "none") (str "NS1.Item") eq_refl).
  by_compute.
Defined.

End NamingModesExtra.

(** ** [main.go]: exported identifiers *)

Module IdentifierExtra.
Import Main GoStrFacts.

Section Identifiers.
Context (U : UnicodeTables).

Lemma goExported_shape (name : gostring) :
  ∃ r rest,
    goExported U name = r :: rest
    ∧ (IsLetter U r = true ∨ r = 95%N ∨ r = 88%N)
    ∧ Forall (λ c, IsLetter U c = true ∨ IsDigit U c = true ∨ c = 95%N) rest.
Proof.
  assert (∀ l, Forall (λ c, IsLetter U c = true ∨ IsDigit U c = true ∨ c = 95%N)
                      (exportedTail U l)) as Htail.
  { intros l. unfold exportedTail. apply Forall_forall. intros c Hc.
    apply list_elem_of_filter in Hc as [Hc _].
    apply Is_true_true in Hc.
    apply orb_true_iff in Hc as [Hc|Hc]; [apply orb_true_iff in Hc as [?|?]|];
      [by left|right; by left|].
    apply bool_decide_eq_true in Hc. right. by right. }
  destruct name as [|r0 rest].
  - exists 88%N, []. split; [done|]. split; [right; by right|constructor].
  - cbn [goExported].
    destruct (IsLetter U (ToUpper U r0) || bool_decide (ToUpper U r0 = 95%N))
      eqn:Hfirst.
    + exists (ToUpper U r0), (exportedTail U rest). split; [done|].
      split; [|apply Htail].
      apply orb_true_iff in Hfirst as [?|Hu]; [by left|].
      apply bool_decide_eq_true in Hu. right. by left.
    + destruct (IsDigit U (ToUpper U r0)) eqn:Hd.
      * exists 88%N, (ToUpper U r0 :: exportedTail U rest). split; [done|].
        split; [right; by right|]. constructor; [|apply Htail].
        right. by left.
      * exists 88%N, (exportedTail U rest). split; [done|].
        split; [right; by right|apply Htail].
Qed.

(** [goExported] always returns a name that is not empty, that starts
    with a letter, an underscore or [X], and that goes on with letters,
    digits and underscores only. *)
Theorem goExported_identifier (name : gostring) :
  ∃ r rest,
    goExported U name = r :: rest
    ∧ (IsLetter U r = true ∨ r = 95%N ∨ r = 88%N)
    ∧ Forall (λ c, IsLetter U c = true ∨ IsDigit U c = true ∨ c = 95%N) rest.
Proof. apply goExported_shape. Qed.

(** The alias of a namespace is never empty, even for a namespace made
    of symbols only. *)
Theorem namespaceAlias_nonempty (ns : gostring) : namespaceAlias U ns ≠ [].
Proof.
  unfold namespaceAlias.
  match goal with
  | |- goExported U ?x ≠ [] =>
      destruct (goExported_shape x) as (r & rest & -> & _)
  end.
  done.
Qed.

(** Every Go keyword starts with a lower case ASCII letter. *)
Lemma goKeywords_lower_case :
  Forall (λ k, ∃ h t, k = h :: t ∧ (97 ≤ h ≤ 122)%N) goKeywords.
Proof.
  repeat constructor; (eexists _, _; split; [vm_compute; reflexivity|lia]).
Qed.

(** [safeFieldName] never appends the underscore: the exported name starts
    with an upper case letter, an underscore or [X], and no Go keyword
    does.  The tables are such that [ToUpper] never yields a lower case
    ASCII letter. *)
Theorem safeFieldName_is_goExported (name : gostring) :
  (∀ r, ¬ (97 ≤ ToUpper U r ≤ 122)%N) →
  safeFieldName U name = goExported U name.
Proof.
  intros Hup. unfold safeFieldName.
  rewrite bool_decide_eq_false_2; [done|]. intros Hkw.
  pose proof goKeywords_lower_case as Hlow.
  rewrite Forall_forall in Hlow.
  destruct (Hlow _ Hkw) as (h & t & Heq & Hh).
  destruct name as [|r0 rest].
  - cbn in Heq. injection Heq as <- _. lia.
  - cbn [goExported] in Heq.
    destruct (IsLetter U (ToUpper U r0) || bool_decide (ToUpper U r0 = 95%N)).
    + injection Heq as <- _. by apply (Hup r0).
    + destruct (IsDigit U (ToUpper U r0)); injection Heq as <- _; lia.
Qed.

End Identifiers.

Lemma asciiTables_ToUpper (r : rune) : ¬ (97 ≤ ToUpper asciiTables r ≤ 122)%N.
Proof.
  cbn. destruct ((97 <=? r)%N && (r <=? 122)%N) eqn:E.
  - apply andb_true_iff in E as [?%N.leb_le ?%N.leb_le]. lia.
  - apply andb_false_iff in E as [?%N.leb_gt|?%N.leb_gt]; lia.
Qed.

Lemma safeFieldName_witness :
  safeFieldName asciiTables (str "type") = goExported asciiTables (str "type").
Proof.
  apply (safeFieldName_is_goExported asciiTables (str "type")).
  exact asciiTables_ToUpper.
Defined.

End IdentifierExtra.

(** ** [main.go]: the values of the emitted constants *)

Module ConstExtra.
Import Main GoStrFacts.

(** The value of an explicit member value written as a literal. *)
Definition literalValue (v : gostring) : option Z :=
  evalConstExpr 0 (Literal v).

Lemma evalConstExpr_literal idx v :
  evalConstExpr idx (Literal v) = literalValue v.
Proof. done. Qed.

Section Consts.
Context (U : UnicodeTables).

Definition constNameOf (goName : gostring) (m : EnumMember) : gostring :=
  goName ++ goExported U (mName m).

(** The constants of members without value, away from the head of the
    block: lines without expression. *)
Lemma emitEnumConsts_bare goName goUnder (f : nat → nat) (run : list EnumMember) :
  (∀ i, f i ≠ 0%nat) →
  Forall (λ m, mValue m = []) run →
  imap (λ idx m,
          let constName := goName ++ goExported U (mName m) in
          if bool_decide (mValue m ≠ []) then
            {| cName := constName; cType := goName;
               cExpr := Some (Literal (castEnumValue goUnder (mValue m))) |}
          else if bool_decide (f idx = 0%nat) then
            {| cName := constName; cType := goName; cExpr := Some Iota |}
          else
            {| cName := constName; cType := goName; cExpr := None |}) run
  = (λ m, {| cName := constNameOf goName m; cType := goName; cExpr := None |})
      <$> run.
Proof.
  intros Hf Hrun. revert f Hf.
  induction Hrun as [|m run Hm _ IH]; intros f Hf; [done|].
  cbn [imap fmap list_fmap]. rewrite Hm.
  rewrite bool_decide_eq_false_2 by (by intros ?).
  rewrite bool_decide_eq_false_2 by apply Hf.
  f_equal. apply (IH (f ∘ S)). intros i. apply Hf.
Qed.

Lemma constValuesFrom_bare_iota k (cs : list constSpec) :
  Forall (λ c, cExpr c = None) cs →
  constValuesFrom k (Some Iota) cs
  = imap (λ i c, (cName c, Some (Z.of_nat (k + i)))) cs.
Proof.
  intros Hcs. revert k. induction Hcs as [|c cs Hc _ IH]; intros k; [done|].
  cbn [constValuesFrom imap]. rewrite Hc. cbn. rewrite Nat.add_0_r.
  f_equal. rewrite IH. apply imap_ext. intros i x _. cbn.
  by rewrite Nat.add_succ_r.
Qed.

Lemma constValuesFrom_bare_literal k v (cs : list constSpec) :
  Forall (λ c, cExpr c = None) cs →
  constValuesFrom k (Some (Literal v)) cs
  = (λ c, (cName c, literalValue v)) <$> cs.
Proof.
  intros Hcs. revert k. induction Hcs as [|c cs Hc _ IH]; intros k; [done|].
  cbn [constValuesFrom fmap list_fmap]. rewrite Hc. by rewrite IH.
Qed.

Lemma constValuesFrom_length k prev (cs : list constSpec) :
  length (constValuesFrom k prev cs) = length cs.
Proof.
  revert k prev. induction cs as [|c cs IH]; intros k prev; [done|].
  cbn [constValuesFrom length]. by rewrite IH.
Qed.

(** A line with an expression cuts the block: what stands above it has
    no effect on it and on the lines below. *)
Lemma constValuesFrom_cut k prev (pre : list constSpec) c e rest :
  cExpr c = Some e →
  constValuesFrom k prev (pre ++ c :: rest)
  = constValuesFrom k prev pre
    ++ (cName c, evalConstExpr (k + length pre) e)
       :: constValuesFrom (S (k + length pre)) (Some e) rest.
Proof.
  intros Hc. revert k prev. induction pre as [|p pre IH]; intros k prev.
  - cbn [app constValuesFrom length]. rewrite Hc, Nat.add_0_r. done.
  - cbn [app constValuesFrom length]. rewrite IH.
    by rewrite Nat.add_succ_r.
Qed.

(** When no member has an explicit value, the constants count up from
    zero in the order of the members. *)
Theorem emitEnum_sequential_without_values goName goUnder
    (members : list EnumMember) :
  Forall (λ m, mValue m = []) members →
  constValues (emitEnumConsts U goName goUnder members)
  = imap (λ i m, (constNameOf goName m, Some (Z.of_nat i))) members.
Proof.
  intros Hall. destruct Hall as [|m run Hm Hrun]; [done|].
  unfold constValues, emitEnumConsts. cbn [imap constValuesFrom].
  rewrite Hm. rewrite bool_decide_eq_false_2 by (by intros ?).
  rewrite bool_decide_eq_true_2 by done. cbn [cExpr cName].
  f_equal.
  match goal with
  | |- context [imap ?f run] =>
      assert (imap f run
              = (λ m, {| cName := constNameOf goName m; cType := goName;
                         cExpr := None |}) <$> run) as ->
        by (by apply (emitEnumConsts_bare goName goUnder S run))
  end.
  rewrite constValuesFrom_bare_iota
    by (apply Forall_fmap, Forall_forall; by intros).
  rewrite imap_fmap. apply imap_ext. by intros i x _.
Qed.

(** A member without value that comes after a member with an explicit
    value does not count on from it: it repeats that value, and so does
    every member without value that follows. *)
Theorem emitEnum_repeats_explicit_value goName goUnder
    (pre : list EnumMember) (m : EnumMember) (run : list EnumMember) (z : Z) :
  literalValue (mValue m) = Some z →
  Forall (λ r, mValue r = []) run →
  drop (length pre)
       (constValues (emitEnumConsts U goName goUnder (pre ++ m :: run)))
  = (constNameOf goName m, Some z)
    :: ((λ r, (constNameOf goName r, Some z)) <$> run).
Proof.
  intros Hz Hrun.
  assert (mValue m ≠ []) as Hm by (intros E; by rewrite E in Hz).
  unfold constValues, emitEnumConsts.
  rewrite imap_app. cbn [imap].
  rewrite bool_decide_eq_true_2 by done.
  erewrite constValuesFrom_cut by done. cbn [cName].
  rewrite drop_app_length'.
  2:{ by rewrite constValuesFrom_length, length_imap. }
  rewrite evalConstExpr_literal.
  assert (castEnumValue goUnder (mValue m) = mValue m) as ->
    by (unfold castEnumValue; by destruct (_ || _)).
  rewrite Hz. f_equal.
  match goal with
  | |- context [imap ?f run] =>
      assert (imap f run
              = (λ m, {| cName := constNameOf goName m; cType := goName;
                         cExpr := None |}) <$> run) as ->
        by (apply (emitEnumConsts_bare goName goUnder
                     (λ i, length pre + S i)%nat run); [intros; lia|done])
  end.
  rewrite constValuesFrom_bare_literal
    by (apply Forall_fmap, Forall_forall; by intros).
  rewrite <- list_fmap_compose. rewrite Hz. done.
Qed.

End Consts.

Lemma emitEnum_sequential_witness :
  constValues (emitEnumConsts asciiTables (str "Color") (str "int32")
                 [{| mName := str "Red"; mValue := [] |};
                  {| mName := str "Green"; mValue := [] |};
                  {| mName := str "Blue"; mValue := [] |}])
  = [(str "ColorRed", Some 0); (str "ColorGreen", Some 1);
     (str "ColorBlue", Some 2)].
Proof.
  apply (emitEnum_sequential_without_values asciiTables (str "Color")
           (str "int32")).
  repeat constructor.
Defined.

Lemma emitEnum_repeats_witness :
  drop 1 (constValues
            (emitEnumConsts asciiTables (str "Level") (str "int32")
               [{| mName := str "Low"; mValue := [] |};
                {| mName := str "Mid"; mValue := str "10" |};
                {| mName := str "High"; mValue := [] |};
                {| mName := str "Top"; mValue := [] |}]))
  = [(str "LevelMid", Some 10); (str "LevelHigh", Some 10);
     (str "LevelTop", Some 10)].
Proof.
  apply (emitEnum_repeats_explicit_value asciiTables (str "Level")
           (str "int32") [{| mName := str "Low"; mValue := [] |}]
           {| mName := str "Mid"; mValue := str "10" |}
           [{| mName := str "High"; mValue := [] |};
            {| mName := str "Top"; mValue := [] |}] 10).
  - vm_compute. reflexivity.
  - repeat constructor.
Defined.

End ConstExtra.

(** ** [main.go]: the emitted JSON methods of an enum *)

Module CodecExtra.
Import Main GoStrFacts FlagsEnumFacts.

Lemma unmarshalFlags_listed (nameToValue : gmap gostring Z) (s : gostring) :
  Forall (λ p, is_Some (nameToValue !! p)) (listedNames s) →
  unmarshalFlags nameToValue s
  = DecodedOk (foldl Z.lor 0 (valueOf nameToValue <$> listedNames s)).
Proof.
  intros Hall. unfold unmarshalFlags. case_bool_decide as Hs.
  - by subst s.
  - by apply decodeFlagParts_ok.
Qed.

(** The flags decoder looks at the listed names only: when they are all
    recognised, the value is the OR of their values, whatever white space
    and empty items the text holds besides. *)
Theorem unmarshalFlags_value (nameToValue : gmap gostring Z) (s : gostring) :
  Forall (λ p, is_Some (nameToValue !! p)) (listedNames s) →
  unmarshalFlags nameToValue s
  = DecodedOk (foldl Z.lor 0 (valueOf nameToValue <$> listedNames s)).
Proof. apply unmarshalFlags_listed. Qed.

Lemma unmarshalFlags_value_witness :
  unmarshalFlags {[ str "Read" := 1; str "Write" := 2 ]} (str " Read , ,Write,")
  = DecodedOk 3.
Proof.
  rewrite (unmarshalFlags_value {[ str "Read" := 1; str "Write" := 2 ]}
             (str " Read , ,Write,")).
  - vm_compute. reflexivity.
  - repeat constructor; by_compute.
Defined.

Lemma foldl_lor_perm (l l' : list Z) (v : Z) :
  l ≡ₚ l' → foldl Z.lor v l = foldl Z.lor v l'.
Proof.
  intros Hp. revert v.
  induction Hp as [|x l l' _ IH|x y l|l l' l'' _ IH1 _ IH2]; intros v; cbn.
  - done.
  - apply IH.
  - f_equal. rewrite <- !Z.lor_assoc. f_equal. apply Z.lor_comm.
  - by rewrite IH1.
Qed.

(** The order in which a flags value lists its names does not matter. *)
Theorem unmarshalFlags_order_irrelevant (nameToValue : gmap gostring Z)
    (names names' : list gostring) :
  names ≡ₚ names' →
  Forall plainName names →
  Forall (λ n, is_Some (nameToValue !! n)) names →
  unmarshalFlags nameToValue (Join names [comma])
  = unmarshalFlags nameToValue (Join names' [comma]).
Proof.
  intros Hp Hplain Hknown.
  assert (Forall plainName names') as Hplain' by (by rewrite <- Hp).
  assert (Forall (λ n, is_Some (nameToValue !! n)) names') as Hknown'
    by (by rewrite <- Hp).
  rewrite !unmarshalFlags_listed by (by rewrite listedNames_Join).
  rewrite !listedNames_Join by done. f_equal.
  apply foldl_lor_perm. by apply fmap_Permutation.
Qed.

Lemma unmarshalFlags_order_witness :
  unmarshalFlags {[ str "A" := 1; str "B" := 2 ]}
    (Join [str "A"; str "B"] [comma])
  = unmarshalFlags {[ str "A" := 1; str "B" := 2 ]}
      (Join [str "B"; str "A"] [comma]).
Proof.
  apply (unmarshalFlags_order_irrelevant {[ str "A" := 1; str "B" := 2 ]}
           [str "A"; str "B"] [str "B"; str "A"]).
  - apply Permutation_swap.
  - repeat constructor; by_compute.
  - repeat constructor; by_compute.
Defined.

(** A name that stands alone decodes to the value of that name. *)
Lemma unmarshalFlags_single_name (nameToValue : gmap gostring Z) n v :
  plainName n → nameToValue !! n = Some v →
  unmarshalFlags nameToValue n = DecodedOk v.
Proof.
  intros Hn Hv.
  assert (listedNames n = [n]) as Hl
    by (apply (listedNames_Join [n]); by constructor).
  rewrite unmarshalFlags_listed; rewrite Hl.
  - cbn. unfold valueOf. by rewrite Hv.
  - by constructor.
Qed.

(** Round trip of the emitted methods: what [MarshalJSON] writes for a
    value of the enum type, [UnmarshalJSON] reads back as that value; a
    value with a name travels as the name, any other value as a number.
    The value lies in the range of the underlying type, the member names
    are distinct, as the Go compiler demands of the map literals, and for
    a flags enum they are not empty, hold no comma and have no white
    space around them. *)
Theorem enum_json_round_trip (isFlags : bool) (under : intRange)
    (members : list (gostring * Z)) (t : Z) :
  lowest under ≤ t ≤ highest under →
  NoDup members.*1 →
  (isFlags = true → Forall (λ nv, plainName nv.1) members) →
  unmarshalJSON isFlags under (nameToValueMap members)
    (marshalJSON (valueToNameMap members) t)
  = Stored t.
Proof.
  intros Hrange Hnames Hplain. unfold marshalJSON.
  destruct (valueToNameMap members !! t) as [n|] eqn:Hn.
  2:{ cbn [unmarshalJSON]. by rewrite bool_decide_eq_true_2. }
  unfold valueToNameMap in Hn. apply elem_of_list_to_map_2 in Hn.
  apply list_elem_of_fmap in Hn as ([n' t'] & Heq & Hin).
  cbn in Heq. injection Heq as -> ->.
  assert (nameToValueMap members !! n' = Some t') as Hv
    by (by apply elem_of_list_to_map_1).
  cbn [unmarshalJSON]. destruct isFlags.
  - rewrite (unmarshalFlags_single_name _ n' t'); [done| |done].
    specialize (Hplain eq_refl). rewrite Forall_forall in Hplain.
    apply (Hplain _ Hin).
  - unfold unmarshalSingle. by rewrite Hv.
Qed.

Lemma enum_json_round_trip_witness :
  unmarshalJSON true int32Range
    (nameToValueMap [(str "Read", 1); (str "Write", 2)])
    (marshalJSON (valueToNameMap [(str "Read", 1); (str "Write", 2)]) 2)
  = Stored 2
  ∧ unmarshalJSON true int32Range
      (nameToValueMap [(str "Read", 1); (str "Write", 2)])
      (marshalJSON (valueToNameMap [(str "Read", 1); (str "Write", 2)]) 3)
    = Stored 3.
Proof.
  split;
    (apply (enum_json_round_trip true int32Range
              [(str "Read", 1); (str "Write", 2)]);
     [vm_compute; split; discriminate
     |by_compute|intros _; repeat constructor; by_compute]).
Defined.

(** Outside the range of the underlying type a number is refused, and a
    flags member with the empty name is lost on the way: the empty text
    decodes to zero. *)
Lemma enum_json_edge_cases :
  unmarshalJSON false int32Range ∅ (WireNumber (2 ^ 31)) = JsonError
  ∧ unmarshalJSON true int32Range (nameToValueMap [([], 1)])
      (marshalJSON (valueToNameMap [([], 1)]) 1) = Stored 0.
Proof. vm_compute. done. Qed.

End CodecExtra.

(** ** [main.go]: what [resolveTypeRef] does to the generator state *)

Module ResolveExtra.
Import Main GoStrFacts ResolveFacts UnknownFacts.

(** The state after a resolution differs from the state before only in
    the two import flags, and those are only ever raised. *)
Definition onlyRaisesFlags (st st' : genState) : Prop :=
  (opts st' = opts st) ∧ (nsAliases st' = nsAliases st)
  ∧ (knownTypes st' = knownTypes st) ∧ (typeNameMap st' = typeNameMap st)
  ∧ (useTime st = true → useTime st' = true)
  ∧ (useDecimal st = true → useDecimal st' = true).

Lemma resolveScalar_frame st raw h ctxNS :
  onlyRaisesFlags st (resolveScalar st raw h ctxNS).2.
Proof.
  unfold resolveScalar, onlyRaisesFlags.
  destruct (HasPrefix raw (str "Edm.")).
  - destruct (mapEdmToGo st raw (boolOrDefault h true)) as [[t needsTime] needsDec].
    destruct needsTime, needsDec; cbn; auto 10.
  - repeat case_match; cbn; auto 10.
Qed.

Theorem resolveTypeRef_only_raises_import_flags st raw h ctxNS :
  onlyRaisesFlags st (resolveTypeRef st raw h ctxNS).2.
Proof.
  unfold resolveTypeRef. generalize (length raw). intros n.
  revert raw h. induction n as [|n IH]; intros raw h.
  - cbn [resolveTypeRef_rec]. destruct (reCollection raw);
      apply resolveScalar_frame.
  - cbn [resolveTypeRef_rec]. destruct (reCollection raw) as [m1|].
    + specialize (IH m1 None).
      by destruct (resolveTypeRef_rec n st m1 None ctxNS).
    + apply resolveScalar_frame.
Qed.

Lemma mapEdmToGo_decimal_flag st edm nullable :
  (mapEdmToGo st edm nullable).2 = true →
  edm = str "Edm.Decimal" ∧ DecimalMode (opts st) ≠ str "string".
Proof.
  unfold mapEdmToGo, isLit.
  repeat match goal with
         | |- context [bool_decide (edm = ?l)] =>
             destruct (bool_decide_reflect (edm = l)); cbn [orb];
             try discriminate
         end.
  case_bool_decide; [discriminate|done].
Qed.

(** In decimal mode [string] no resolution ever asks for the decimal
    import, and [Edm.Decimal] is a string. *)
Theorem string_mode_never_needs_decimal st raw h ctxNS :
  DecimalMode (opts st) = str "string" →
  useDecimal (resolveTypeRef st raw h ctxNS).2 = useDecimal st
  ∧ resolveTypeRef st (str "Edm.Decimal") h ctxNS
    = (ptrIf (boolOrDefault h true) "string", st).
Proof.
  intros Hmode. split.
  - unfold resolveTypeRef. generalize (length raw). intros n.
    revert raw h.
    assert (∀ raw h, useDecimal (resolveScalar st raw h ctxNS).2 = useDecimal st)
      as Hscalar.
    { intros raw h. unfold resolveScalar.
      destruct (HasPrefix raw (str "Edm.")).
      - destruct (mapEdmToGo st raw (boolOrDefault h true))
          as [[t needsTime] needsDec] eqn:E.
        destruct needsDec.
        + pose proof (mapEdmToGo_decimal_flag st raw (boolOrDefault h true))
            as Hd. rewrite E in Hd. destruct (Hd eq_refl). done.
        + by destruct needsTime.
      - by repeat case_match. }
    induction n as [|n IH]; intros raw h.
    + cbn [resolveTypeRef_rec]. destruct (reCollection raw); apply Hscalar.
    + cbn [resolveTypeRef_rec]. destruct (reCollection raw) as [m1|].
      * specialize (IH m1 None).
        by destruct (resolveTypeRef_rec n st m1 None ctxNS).
      * apply Hscalar.
  - rewrite resolveTypeRef_scalar by (vm_compute; reflexivity).
    unfold resolveScalar.
    change (HasPrefix (str "Edm.Decimal") (str "Edm.")) with true. cbv iota.
    assert (mapEdmToGo st (str "Edm.Decimal") (boolOrDefault h true)
            = (ptrIf (boolOrDefault h true) "string", false, false)) as ->.
    { unfold mapEdmToGo. rewrite Hmode. reflexivity. }
    done.
Qed.

Definition stringModeState : genState :=
  generateState asciiTables []
    {| PkgName := str "models"; DecimalMode := str "string";
       NsPrefixMode := str "auto"; InPath := []; OutPath := [] |}.

Lemma string_mode_witness :
  useDecimal (resolveTypeRef stringModeState (str "Collection(Edm.Decimal)")
                None (str "NS")).2 = useDecimal stringModeState
  ∧ resolveTypeRef stringModeState (str "Edm.Decimal") None (str "NS")
    = (ptrIf (boolOrDefault None true) "string", stringModeState).
Proof.
  apply (string_mode_never_needs_decimal stringModeState
           (str "Collection(Edm.Decimal)") None (str "NS")).
  reflexivity.
Defined.

(** A collection of a declared type is a slice of the type itself, never
    of pointers to it, whatever the nullability of the property. *)
Theorem collection_of_declared_type st X h ctxNS goName :
  reCollection X = None →
  HasPrefix X (str "Edm.") = false →
  X ≠ [] → 10%N ∉ X →
  typeNameMap st !! qualifiedName X ctxNS = Some goName →
  goName ≠ [] → HasPrefix goName (str "*") = false →
  resolveTypeRef st (str "Collection(" ++ X ++ str ")") h ctxNS
  = (str "[]" ++ goName, st).
Proof.
  intros Hc Hp Hne Hnl Hq Hg Hstar.
  assert (resolveTypeRef st X None ctxNS
          = (if isStructNamedType goName then str "*" ++ goName else goName, st))
    as Hinner.
  { rewrite resolveTypeRef_scalar by done.
    unfold resolveScalar. rewrite Hp.
    unfold qualifiedName in Hq. unfold mapGet. rewrite Hq. cbn [default].
    unfold id.
    rewrite bool_decide_eq_false_2 by done. cbn [boolOrDefault andb].
    by destruct (isStructNamedType goName). }
  rewrite resolveTypeRef_eq, (reCollection_wrap X Hne Hnl), Hinner.
  f_equal. f_equal. unfold stripPointer.
  destruct (isStructNamedType goName).
  - rewrite HasPrefix_app. unfold TrimPrefix. rewrite HasPrefix_app.
    by rewrite drop_app_length.
  - by rewrite Hstar.
Qed.

Lemma collection_of_declared_type_witness :
  resolveTypeRef
    (generateState asciiTables NamingFacts.twoNamespaces NamingFacts.autoOptions)
    (str "Collection(" ++ str "Foo" ++ str ")") (Some true) (str "NS1")
  = (str "[]" ++ str "NS1Foo",
     generateState asciiTables NamingFacts.twoNamespaces NamingFacts.autoOptions).
Proof.
  apply (collection_of_declared_type _ (str "Foo") (Some true) (str "NS1")
           (str "NS1Foo")); try by_compute; vm_compute; reflexivity.
Defined.

End ResolveExtra.

(** ** The shared helpers: collection wrappers and local names *)

Module EdmNameExtra.
Import EdmName GoStrFacts.

Lemma TrimPrefix_app (p s : gostring) : TrimPrefix (p ++ s) p = s.
Proof.
  unfold TrimPrefix. rewrite HasPrefix_app. by rewrite drop_app_length.
Qed.

Lemma collection_shape (t : gostring) :
  HasPrefix t (str "Collection(") = true → HasSuffix t (str ")") = true →
  t = str "Collection(" ++ drop 11 (take (length t - 1) t) ++ str ")".
Proof.
  intros Hp Hs.
  assert (11 ≤ length t)%nat as Hlen.
  { unfold HasPrefix in Hp. apply bool_decide_eq_true in Hp.
    apply (f_equal length) in Hp. rewrite length_take in Hp.
    change (length (str "Collection(")) with 11%nat in Hp. lia. }
  assert (length t ≠ 11%nat) as Hne.
  { intros H11. pose proof (HasPrefix_true _ _ Hp) as Ht.
    rewrite drop_ge in Ht
      by (change (length (str "Collection(")) with 11%nat; lia).
    rewrite app_nil_r in Ht. rewrite Ht in Hs. by vm_compute in Hs. }
  pose proof (HasSuffix_true _ _ Hs) as Ht.
  change (length (str ")")) with 1%nat in Ht.
  rewrite Ht at 1. rewrite app_assoc. f_equal.
  assert (HasPrefix (take (length t - 1) t) (str "Collection(") = true) as Hp'.
  { unfold HasPrefix in *. apply bool_decide_eq_true in Hp.
    apply bool_decide_eq_true.
    change (length (str "Collection(")) with 11%nat in *.
    rewrite take_take. by rewrite Nat.min_l by lia. }
  by apply HasPrefix_true in Hp'.
Qed.

Lemma isCollection_wrap (X : gostring) :
  isCollection (str "Collection(" ++ X ++ str ")") = (true, X).
Proof.
  unfold isCollection.
  rewrite HasPrefix_app.
  rewrite (app_assoc (str "Collection(") X (str ")")), HasSuffix_app.
  change (true && true) with true. cbv iota. f_equal.
  rewrite length_app. change (length (str ")")) with 1%nat.
  replace (length (str "Collection(" ++ X) + 1 - 1)%nat
    with (length (str "Collection(" ++ X)) by lia.
  rewrite take_app_length. by apply drop_app_length'.
Qed.

Lemma isCollection_other (t : gostring) :
  (isCollection t).1 = false → isCollection t = (false, t).
Proof. unfold isCollection. by destruct (_ && _). Qed.

(** [isCollection] recognises exactly the references of the form
    [Collection(X)], hands back [X], which may be empty, and leaves every
    other reference as it is. *)
Theorem isCollection_spec :
  (∀ X, isCollection (str "Collection(" ++ X ++ str ")") = (true, X))
  ∧ (∀ t X, isCollection t = (true, X) → t = str "Collection(" ++ X ++ str ")")
  ∧ (∀ t, (isCollection t).1 = false → isCollection t = (false, t)).
Proof.
  split; [|split].
  - apply isCollection_wrap.
  - intros t X. unfold isCollection.
    destruct (HasPrefix t (str "Collection(")) eqn:Hp; [|done].
    destruct (HasSuffix t (str ")")) eqn:Hs; [|done].
    cbn [andb]. intros [= <-]. by apply collection_shape.
  - apply isCollection_other.
Qed.

Lemma isCollection_witness :
  str "Collection(Edm.Guid)" = str "Collection(" ++ str "Edm.Guid" ++ str ")".
Proof.
  apply (proj1 (proj2 isCollection_spec) (str "Collection(Edm.Guid)")
           (str "Edm.Guid")).
  reflexivity.
Defined.

(** The local name of a collection is the local name of its element:
    [extractEdmTypeName] sees through one wrapper, for an element that is
    not itself wrapped and does not end with a closing parenthesis. *)
Theorem extractEdmTypeName_through_collection (X : gostring) :
  HasPrefix X (str "Collection(") = false →
  HasSuffix X (str ")") = false →
  extractEdmTypeName (str "Collection(" ++ X ++ str ")")
  = extractEdmTypeName X.
Proof.
  intros Hp Hs. unfold extractEdmTypeName.
  rewrite TrimPrefix_app, TrimSuffix_app.
  unfold TrimPrefix. rewrite Hp. unfold TrimSuffix. by rewrite Hs.
Qed.

Lemma extractEdmTypeName_witness :
  extractEdmTypeName (str "Collection(" ++ str "SAPB1.DocumentLine" ++ str ")")
  = extractEdmTypeName (str "SAPB1.DocumentLine").
Proof.
  apply (extractEdmTypeName_through_collection (str "SAPB1.DocumentLine"));
    reflexivity.
Defined.

(** The local name is what follows the first dot, so a namespace with a
    dot in it is cut in the middle. *)
Lemma extractEdmTypeName_first_dot :
  extractEdmTypeName (str "Microsoft.OData.Order") = str "OData.Order".
Proof. vm_compute. reflexivity. Qed.

(** [getGoType] on a collection: the slice of what the element resolves
    to when it is not nullable; the nullability of the property plays no
    part and the element is never a pointer added by it. *)
Theorem getGoType_collection (X : gostring) (isNullable : bool) :
  (isCollection X).1 = false →
  Grok.getGoType (str "Collection(" ++ X ++ str ")") isNullable
  = str "[]" ++ Grok.getGoType X false.
Proof.
  intros HX. unfold Grok.getGoType.
  rewrite (isCollection_wrap X), (isCollection_other X HX).
  cbn [negb andb]. by destruct (Grok.edmToGo !! extractEdmTypeName X).
Qed.

Lemma getGoType_collection_witness :
  Grok.getGoType (str "Collection(" ++ str "NS.Item" ++ str ")") true
  = str "[]" ++ Grok.getGoType (str "NS.Item") false.
Proof.
  apply (getGoType_collection (str "NS.Item") true). reflexivity.
Defined.

(** A nested collection is flattened to one slice. *)
Lemma getGoType_nested_collection :
  Grok.getGoType (str "Collection(Collection(NS.Item))") false = str "[]Item".
Proof. vm_compute. reflexivity. Qed.

End EdmNameExtra.

(** ** The Zod generator: what the dependency sets hold *)

Module DepsExtra.
Import EdmName GoStrFacts NamespacesExtra.

(** The local names a declaration refers to, in its properties and then
    in its navigation properties. *)
Definition referenced (typ : anyType) : list gostring :=
  ((λ p, extractEdmTypeName (isCollection (pType p)).2) <$> typProps typ)
  ++ ((λ n, extractEdmTypeName (isCollection (nType n)).2) <$> typNavs typ).

(** A name that counts as a dependency: not empty, not the declaration
    itself and not a primitive. *)
Definition counts (selfName name : gostring) : Prop :=
  name ≠ [] ∧ name ≠ selfName ∧ Zod.edmToZod !! name = None.

Lemma addType_spec selfName entitySet complexSet enumSet deps x name :
  (name ∈ (Zod.addType selfName entitySet complexSet enumSet deps x).1
   ↔ name ∈ deps.1 ∨ (name = x ∧ counts selfName x ∧ x ∉ enumSet))
  ∧ (name ∈ (Zod.addType selfName entitySet complexSet enumSet deps x).2
     ↔ name ∈ deps.2 ∨ (name = x ∧ counts selfName x ∧ x ∈ enumSet)).
Proof.
  destruct deps as [typeDeps enumDeps]. unfold Zod.addType, counts.
  cbn [fst snd].
  destruct (bool_decide_reflect (x = [])) as [Hx|Hx]; cbn [orb].
  { cbn [fst snd]. split; (split; [by left|]); by intros [?|(_ & (? & _) & _)]. }
  destruct (bool_decide_reflect (x = selfName)) as [Hs|Hs].
  { cbn [fst snd]. split; (split; [by left|]);
      by intros [?|(_ & (_ & ? & _) & _)]. }
  destruct (bool_decide_reflect (is_Some (Zod.edmToZod !! x))) as [Hp|Hp].
  { cbn [fst snd]. split; (split; [by left|]);
      intros [?|(_ & (_ & _ & Hn) & _)]; try done;
      rewrite Hn in Hp; by destruct Hp. }
  assert (Zod.edmToZod !! x = None) as Hn
    by (destruct (Zod.edmToZod !! x); [exfalso; apply Hp; by eexists|done]).
  destruct (bool_decide_reflect (x ∈ enumSet)) as [He|He].
  { cbn [fst snd]. split.
    - split; [by left|]. by intros [?|(_ & _ & ?)].
    - rewrite elem_of_union, elem_of_singleton. split.
      + intros [->|?]; [right|by left]. done.
      + intros [?|(-> & _)]; [by right|by left]. }
  assert (∀ S : gset gostring,
            name ∈ {[x]} ∪ S ↔ name ∈ S ∨ (name = x ∧ (x ≠ [] ∧ x ≠ selfName
              ∧ Zod.edmToZod !! x = None) ∧ x ∉ enumSet)) as Hadd.
  { intros S. rewrite elem_of_union, elem_of_singleton. split.
    - intros [->|?]; [right|by left]. done.
    - intros [?|(-> & _)]; [by right|by left]. }
  repeat case_bool_decide; cbn [fst snd];
    (split; [apply Hadd|]); (split; [by left|]); by intros [?|(_ & _ & ?)].
Qed.

Lemma foldl_addType_spec selfName entitySet complexSet enumSet
    (names : list gostring) deps name :
  let deps' := foldl (Zod.addType selfName entitySet complexSet enumSet)
                     deps names in
  (name ∈ deps'.1
   ↔ name ∈ deps.1 ∨ (name ∈ names ∧ counts selfName name ∧ name ∉ enumSet))
  ∧ (name ∈ deps'.2
     ↔ name ∈ deps.2 ∨ (name ∈ names ∧ counts selfName name ∧ name ∈ enumSet)).
Proof.
  cbn zeta. revert deps. induction names as [|x l IH]; intros deps.
  - cbn [foldl]. split; (split; [by left|]);
      intros [?|(Hin & _)]; try done; by apply not_elem_of_nil in Hin.
  - cbn [foldl]. destruct (IH (Zod.addType selfName entitySet complexSet
                                 enumSet deps x)) as [IH1 IH2].
    destruct (addType_spec selfName entitySet complexSet enumSet deps x name)
      as [A1 A2].
    rewrite IH1, IH2, A1, A2. split.
    + split.
      * intros [[?|(-> & ? & ?)]|(? & ? & ?)];
          [by left|right|right]; (split; [|done]); [by left|by right].
      * intros [?|([->|?]%elem_of_cons & ? & ?)];
          [left; by left|left; right; done|right; done].
    + split.
      * intros [[?|(-> & ? & ?)]|(? & ? & ?)];
          [by left|right|right]; (split; [|done]); [by left|by right].
      * intros [?|([->|?]%elem_of_cons & ? & ?)];
          [left; by left|left; right; done|right; done].
Qed.

Lemma collect_as_fold typ entitySet complexSet enumSet :
  Zod.collectTypeAndEnumDeps typ entitySet complexSet enumSet
  = foldl (Zod.addType (typName typ) entitySet complexSet enumSet)
          (∅, ∅) (referenced typ).
Proof.
  unfold Zod.collectTypeAndEnumDeps, referenced.
  rewrite foldl_app, !foldl_fmap.
  assert (∀ (A : Type) (f : A → gostring) (l : list A)
            (deps : gset gostring * gset gostring),
            foldl (λ deps x, let '(_, inner) := isCollection (f x) in
                             Zod.addType (typName typ) entitySet complexSet
                               enumSet deps (extractEdmTypeName inner)) deps l
            = foldl (λ deps x,
                       Zod.addType (typName typ) entitySet complexSet enumSet
                         deps (extractEdmTypeName (isCollection (f x)).2))
                    deps l) as Hfold.
  { intros A f l. induction l as [|x l IH]; intros deps; [done|].
    cbn [foldl]. rewrite IH. by destruct (isCollection (f x)). }
  by rewrite (Hfold _ pType), (Hfold _ nType).
Qed.

(** The dependency sets hold exactly the names the declaration refers
    to that are not empty, not its own name and not primitive: those that
    are declared enums in the enum set, all others in the type set, known
    or not.  The two sets have no name in common. *)
Theorem collectTypeAndEnumDeps_spec typ entitySet complexSet enumSet name :
  let deps := Zod.collectTypeAndEnumDeps typ entitySet complexSet enumSet in
  (name ∈ deps.1
   ↔ name ∈ referenced typ ∧ counts (typName typ) name ∧ name ∉ enumSet)
  ∧ (name ∈ deps.2
     ↔ name ∈ referenced typ ∧ counts (typName typ) name ∧ name ∈ enumSet)
  ∧ ¬ (name ∈ deps.1 ∧ name ∈ deps.2).
Proof.
  cbn zeta. rewrite collect_as_fold.
  destruct (foldl_addType_spec (typName typ) entitySet complexSet enumSet
              (referenced typ) (∅, ∅) name) as [H1 H2].
  cbn [fst snd] in H1, H2.
  assert (∀ P : Prop, name ∈ (∅ : gset gostring) ∨ P ↔ P) as Hempty
    by (intros P; split; [intros [H|?]; [by apply not_elem_of_empty in H|done]
                         |by right]).
  rewrite Hempty in H1, H2. split; [done|]. split; [done|].
  rewrite H1, H2. by intros [(_ & _ & ?) (_ & _ & ?)].
Qed.

(** [toSortedSlice] lists the members of a set once each, in ascending
    order. *)
Theorem toSortedSlice_spec (set : gset gostring) :
  StronglySorted Main.strLe (Zod.toSortedSlice set)
  ∧ NoDup (Zod.toSortedSlice set)
  ∧ ∀ name, name ∈ Zod.toSortedSlice set ↔ name ∈ set.
Proof.
  unfold Zod.toSortedSlice. split; [apply sortStrings_sorted|]. split.
  - rewrite sortStrings_perm. apply NoDup_elements.
  - intros name. by rewrite sortStrings_perm, elem_of_elements.
Qed.

End DepsExtra.

(** ** The Zod generator: field types and enum values *)

Module ZodExtra.
Import EdmName GoStrFacts.

(** Every field type [getZodType] writes ends in [.nullish()]: the
    nullability of the property is not looked at, and a property declared
    not nullable is as optional as any other. *)
Theorem getZodType_always_nullish edmType (isNullable : bool) target :
  HasSuffix (Zod.getZodType edmType isNullable target).1 (str ".nullish()")
  = true
  ∧ Zod.getZodType edmType isNullable target
    = Zod.getZodType edmType (negb isNullable) target.
Proof.
  split; [|done]. unfold Zod.getZodType.
  destruct (isCollection edmType) as [isColl innerEdm].
  destruct (match Zod.edmToZod !! extractEdmTypeName innerEdm with
            | Some zod => (zod, [])
            | None => _
            end) as [baseZod log].
  destruct isColl; cbn [fst]; apply HasSuffix_app.
Qed.

(** The note [generateZodEnum] adds to a value that did not parse. *)
Definition parseNote (m : EnumMember) : gostring :=
  if bool_decide (mValue m ≠ []) then
    match Atoi (mValue m) with
    | None => str " /* parsed error: " ++ mValue m ++ str " */"
    | Some _ => []
    end
  else [].

(** The Go generator and the Zod generator number the members of an enum
    alike: the Zod text of a member is the value [generateEnum] writes for
    it, followed by the note when the explicit value did not parse. *)
Theorem enum_generators_agree eName cur (members : list EnumMember) :
  Zod.zodEnumLoop cur members
  = zip_with (λ l m, (Grok.lMember l, Grok.lVal l ++ parseNote m))
             (Grok.enumLoop eName cur members).1 members.
Proof.
  revert cur. induction members as [|m ms IH]; intros cur; [done|].
  assert (∀ (ls : list Grok.enumLine * list enumWarning) l,
            zip_with (λ l m, (Grok.lMember l, Grok.lVal l ++ parseNote m))
                     (l :: ls.1) (m :: ms)
            = (Grok.lMember l, Grok.lVal l ++ parseNote m)
              :: zip_with (λ l m, (Grok.lMember l, Grok.lVal l ++ parseNote m))
                          ls.1 ms) as Hzip by done.
  cbn [Zod.zodEnumLoop Grok.enumLoop].
  destruct (bool_decide (mValue m ≠ [])) eqn:Hv;
    [destruct (Atoi (mValue m)) as [val|] eqn:Hp|].
  - assert (parseNote m = []) as Hnote
      by (unfold parseNote; by rewrite Hv, Hp).
    rewrite (IH (wrapInt (val + 1))).
    destruct (Grok.enumLoop eName (wrapInt (val + 1)) ms) as [ls ws] eqn:E.
    cbn [fst]. rewrite (Hzip (ls, ws)). cbn [Grok.lMember Grok.lVal fst].
    by rewrite Hnote, app_nil_r.
  - assert (parseNote m = str " /* parsed error: " ++ mValue m ++ str " */")
      as Hnote by (unfold parseNote; by rewrite Hv, Hp).
    rewrite (IH cur).
    destruct (Grok.enumLoop eName cur ms) as [ls ws] eqn:E.
    cbn [fst]. rewrite (Hzip (ls, ws)). cbn [Grok.lMember Grok.lVal fst].
    by rewrite Hnote.
  - assert (parseNote m = []) as Hnote by (unfold parseNote; by rewrite Hv).
    rewrite (IH (wrapInt (cur + 1))).
    destruct (Grok.enumLoop eName (wrapInt (cur + 1)) ms) as [ls ws] eqn:E.
    cbn [fst]. rewrite (Hzip (ls, ws)). cbn [Grok.lMember Grok.lVal fst].
    by rewrite Hnote, app_nil_r.
Qed.

End ZodExtra.

(** ** The ArkType generator: enums and nullable types *)

Module ArkExtra.
Import EdmName GoStrFacts.

Definition quoted (v : gostring) : gostring := str "'" ++ v ++ str "'".

Lemma uniqueNames_fold (members : list EnumMember) :
  foldl (λ '(seen, vals) m,
           if negb (bool_decide (mName m ∈ seen))
           then (({[mName m]} ∪ seen) : gset gostring, vals ++ [mName m])
           else (seen, vals))
        (∅, []) members
  = (list_to_set (mName <$> members),
     reverse (remove_dups (reverse (mName <$> members)))).
Proof.
  induction members as [|m ms IH] using rev_ind; [done|].
  rewrite foldl_snoc, IH, fmap_app. cbn [fmap list_fmap].
  rewrite reverse_app, reverse_singleton. cbn [app remove_dups].
  assert (mName m ∈ (list_to_set (mName <$> ms) : gset gostring)
          ↔ mName m ∈ reverse (mName <$> ms)) as Hiff
    by (by rewrite elem_of_list_to_set, elem_of_reverse).
  destruct (decide_rel elem_of (mName m) (reverse (mName <$> ms))) as [Hin|Hin].
  - rewrite bool_decide_eq_true_2 by (by apply Hiff).
    cbn [negb]. f_equal. apply Hiff in Hin.
    apply set_eq. intros x. rewrite list_to_set_app, elem_of_union.
    split; [by left|]. intros [?|Hx]; [done|].
    rewrite list_to_set_singleton in Hx. by apply elem_of_singleton in Hx as ->.
  - rewrite bool_decide_eq_false_2 by (by rewrite Hiff).
    cbn [negb]. f_equal.
    + apply set_eq. intros x.
      rewrite list_to_set_app, list_to_set_singleton, !elem_of_union. tauto.
    + by rewrite reverse_cons.
Qed.

(** The union of an enum lists every member name once, at the place of
    its first occurrence. *)
Theorem uniqueNames_spec (members : list EnumMember) :
  Ark.uniqueNames members
  = reverse (remove_dups (reverse (mName <$> members)))
  ∧ NoDup (Ark.uniqueNames members)
  ∧ ∀ name, name ∈ Ark.uniqueNames members ↔ ∃ m, m ∈ members ∧ mName m = name.
Proof.
  assert (Ark.uniqueNames members
          = reverse (remove_dups (reverse (mName <$> members)))) as Heq
    by (unfold Ark.uniqueNames; by rewrite uniqueNames_fold).
  split; [done|]. rewrite Heq. split.
  - rewrite reverse_Permutation. apply NoDup_remove_dups.
  - intros name.
    rewrite elem_of_reverse, elem_of_remove_dups, elem_of_reverse,
      list_elem_of_fmap.
    split; intros (m & ? & ?); by exists m.
Qed.

Lemma union_fold (vals : list gostring) (i : nat) (b : gostring) :
  (foldl (λ '(i, b) v,
            let b := if bool_decide (0 < i)%nat then b ++ str "|" else b in
            (S i, b ++ str "'" ++ v ++ str "'"))
         (i, b) vals).2
  = b ++ match vals with
         | [] => []
         | _ => (if bool_decide (0 < i)%nat then str "|" else [])
                ++ Join (quoted <$> vals) (str "|")
         end.
Proof.
  revert i b. induction vals as [|v rest IH]; intros i b.
  - cbn. by rewrite app_nil_r.
  - cbn [foldl]. rewrite IH.
    rewrite (bool_decide_eq_true_2 (0 < S i)%nat) by lia.
    destruct rest as [|v' rest'].
    + cbn [fmap list_fmap Join]. rewrite app_nil_r. unfold quoted.
      case_bool_decide; [by rewrite <- app_assoc|reflexivity].
    + cbn [fmap list_fmap Join]. unfold quoted.
      case_bool_decide; [by rewrite <- !app_assoc|].
      cbn [app]. by rewrite <- !app_assoc.
Qed.

(** The text [generateArkEnum] emits: the distinct member names, each in
    single quotes, separated by bars. *)
Theorem generateArkEnum_text (e : EnumType) :
  Ark.generateArkEnum e
  = str "export const " ++ enName e ++ str "Type = type(" ++ [34%N]
    ++ Join (quoted <$> Ark.uniqueNames (Members e)) (str "|")
    ++ [34%N] ++ str ");" ++ nl ++ nl.
Proof.
  unfold Ark.generateArkEnum. rewrite union_fold.
  rewrite bool_decide_eq_false_2 by lia.
  destruct (Ark.uniqueNames (Members e)) as [|v rest].
  - cbn [fmap list_fmap Join]. by rewrite <- !app_assoc.
  - rewrite app_nil_l. by rewrite <- !app_assoc.
Qed.

(** Every ArkType property type admits [null], and a collection is an
    array that may be [null] as a whole. *)
Theorem arkPropTypeDSL_nullable edmType (isEnum : bool) enumVals :
  HasSuffix (Ark.arkPropTypeDSL edmType isEnum enumVals) (str "|null") = true
  ∧ ((isCollection edmType).1 = true →
     HasSuffix (Ark.arkPropTypeDSL edmType isEnum enumVals) (str "[]|null")
     = true).
Proof.
  unfold Ark.arkPropTypeDSL.
  destruct (isCollection edmType) as [isColl inner]. cbn [fst].
  assert (∀ x, HasSuffix (x ++ str "[]|null") (str "|null") = true) as Harr.
  { intros x. change (str "[]|null") with (str "[]" ++ str "|null").
    rewrite app_assoc. apply HasSuffix_app. }
  destruct (isEnum && bool_decide (0 < length enumVals)%nat).
  - destruct isColl; (split; [|intros; try done]);
      try apply HasSuffix_app; apply Harr.
  - destruct (Ark.edmToArkBase !! extractEdmTypeName inner);
      destruct isColl; (split; [|intros; try done]);
      try apply HasSuffix_app; try apply Harr; reflexivity.
Qed.

Lemma arkPropTypeDSL_witness :
  HasSuffix (Ark.arkPropTypeDSL (str "Collection(Edm.String)") false [])
            (str "[]|null") = true.
Proof.
  apply (proj2 (arkPropTypeDSL_nullable (str "Collection(Edm.String)") false [])).
  reflexivity.
Defined.

End ArkExtra.

(** ** Collections in both Go generators *)

Module CollectionFacts.
Import GoStrFacts ResolveFacts EdmNameExtra.

(** The claim of C6 fails on both resolvers.  [getGoType] flattens a
    collection of a collection to one slice, where the resolution of the
    inner collection made a slice is a slice of slices.  And [main.go]
    does not take [Collection()] for a collection at all: the pattern
    wants an inner part, so the reference falls through to the lookup of
    a name and comes out as [interface{}], not as a slice. *)
Lemma C6_counterexample_nested_and_empty :
  Grok.getGoType (str "Collection(" ++ str "Collection(NS.Item)" ++ str ")") true
  = str "[]Item"
  ∧ str "[]" ++ Grok.getGoType (str "Collection(NS.Item)") false
    = str "[][]Item"
  ∧ (Main.resolveTypeRef emptyState (str "Collection(" ++ [] ++ str ")")
       (Some true) (str "NS")).1 = str "interface{}"
  ∧ str "[]"
    ++ Main.stripPointer (Main.resolveTypeRef emptyState [] None (str "NS")).1
    = str "[]interface{}".
Proof. vm_compute. done. Qed.

(** C6, amended: in [main.go], for every inner reference [X] that is not
    empty and holds no line feed, which is what the pattern of
    [reCollection] matches, and for every nullability hint, resolving
    [Collection(X)] is resolving [X] with the hint cleared and putting
    [[]] in front of the result without its leading pointer; the result
    never starts with a pointer.  In [grok4fastWorking/main.go], for every
    [X] that is not itself of the form [Collection(...)] and for every
    nullability, [getGoType] of [Collection(X)] is [[]] in front of
    [getGoType] of [X] taken as not nullable. *)
Theorem C6_collection_resolves_element_without_hint :
  (∀ (st : Main.genState) (X : gostring) (h : option bool) (ctxNS : gostring),
     X ≠ [] → 10%N ∉ X →
     Main.resolveTypeRef st (str "Collection(" ++ X ++ str ")") h ctxNS
     = (str "[]" ++ Main.stripPointer (Main.resolveTypeRef st X None ctxNS).1,
        (Main.resolveTypeRef st X None ctxNS).2)
     ∧ HasPrefix (Main.resolveTypeRef st (str "Collection(" ++ X ++ str ")")
                    h ctxNS).1 (str "*") = false)
  ∧ (∀ (X : gostring) (isNullable : bool),
       (EdmName.isCollection X).1 = false →
       Grok.getGoType (str "Collection(" ++ X ++ str ")") isNullable
       = str "[]" ++ Grok.getGoType X false).
Proof.
  split.
  - intros st X h ctxNS Hne Hnl.
    rewrite (resolveTypeRef_collection st X h ctxNS Hne Hnl). done.
  - intros X isNullable HX. unfold Grok.getGoType.
    rewrite (isCollection_wrap X), (isCollection_other X HX).
    cbn [negb andb].
    by destruct (Grok.edmToGo !! EdmName.extractEdmTypeName X).
Qed.

Lemma C6_witness :
  (Main.resolveTypeRef emptyState (str "Collection(Edm.Int32)") (Some true)
     (str "NS")
   = (str "[]int32", emptyState)
   ∧ HasPrefix (Main.resolveTypeRef emptyState (str "Collection(Edm.Int32)")
                  (Some true) (str "NS")).1 (str "*") = false)
  ∧ Grok.getGoType (str "Collection(NS.Item)") true = str "[]Item".
Proof.
  split.
  - apply (proj1 C6_collection_resolves_element_without_hint emptyState
             (str "Edm.Int32") (Some true) (str "NS")); by_compute.
  - apply (proj2 C6_collection_resolves_element_without_hint
             (str "NS.Item") true). reflexivity.
Defined.

End CollectionFacts.
